(** * Protocall: the live interview session engine

    A shallow embedding of the session component of the repository,
    which exists in two source variants:

      - [src/components/InterviewSession.tsx]   (variant [SessionTsx])
      - [src/unnamed/part_001]                  (variant [Part001])

    The component is a set of callbacks over mutable refs and React
    state.  Every callback is embedded as a function from the state to
    a [result]: the state it leaves, the calls it made on the browser
    and on the remote channel (the [effect]s, in program order) and
    whether it ended by throwing.

    Conventions of the embedding:
      - JavaScript strings are [string]s whose characters are the
        UTF-16 code units below 256;
      - times of the output audio clock are exact rationals ([Q]);
      - object handles (session, audio contexts, timers, buffer source
        nodes, frame encodes) are natural numbers; timer ids handed out
        by [window.setTimeout] are positive, and a ref holding a timer
        id is truthy when it holds [Some (S _)];
      - the helpers of [services/audioUtils] are not part of the
        sources at hand: [createPcmBlob] is an uninterpreted
        constructor, and the outcome of [decodeAudioData (decode _)]
        is carried by the incoming chunk ([AudioChunk]);
      - a callback runs to its end before the next one starts: the
        [await] on [decodeAudioData] inside [onmessage] is taken not to
        let another callback in;
      - [close], [stop], [clearInterval] and [clearTimeout] are calls
        on the outside world and do not throw here (in [part_001] and
        for [stop] the source wraps them in [try]);
      - React state that only drives rendering ([partialTranscript],
        [error]) and the callbacks that only set it ([onerror],
        [onclose]) are left out. *)

From Stdlib Require Import List String Ascii Bool Arith ZArith QArith Lia Lqa.
From Stdlib Require Import DecimalString.
Import ListNotations.

Close Scope Q_scope.
Local Open Scope nat_scope.
Local Open Scope string_scope.
Local Open Scope list_scope.

(* ------------------------------------------------------------------ *)
(** ** JavaScript strings and numbers *)

Module JS.

(** [WhiteSpace] and [LineTerminator] code units below 256: TAB, LF, VT,
    FF, CR, SP and NBSP. *)
Definition isWhiteSpace (c : ascii) : bool :=
  let n := nat_of_ascii c in
  ((9 <=? n)%nat && (n <=? 13)%nat) || (n =? 32)%nat || (n =? 160)%nat.

Fixpoint trimStart (s : string) : string :=
  match s with
  | EmptyString => EmptyString
  | String c s' => if isWhiteSpace c then trimStart s' else s
  end.

Fixpoint trimEnd (s : string) : string :=
  match s with
  | EmptyString => EmptyString
  | String c s' =>
      match trimEnd s' with
      | EmptyString => if isWhiteSpace c then EmptyString else String c EmptyString
      | t => String c t
      end
  end.

(** [String.prototype.trim] *)
Definition trim (s : string) : string := trimEnd (trimStart s).

(** A string is truthy when it is not empty. *)
Definition truthy (s : string) : bool :=
  match s with EmptyString => false | String _ _ => true end.

(** [Number.prototype.toString] on a non-negative integer. *)
Definition toString (n : nat) : string := NilZero.string_of_uint (Nat.to_uint n).

(** [n] copies of [pad], one after the other. *)
Fixpoint repeatString (n : nat) (pad : string) : string :=
  match n with
  | O => EmptyString
  | S n' => pad ++ repeatString n' pad
  end.

(** [String.prototype.padStart (targetLength, padString)] *)
Definition padStart (targetLength : nat) (padString : string) (s : string) : string :=
  let len := String.length s in
  if (targetLength <=? len)%nat then s
  else
    match padString with
    | EmptyString => s
    | _ =>
        let fillLen := targetLength - len in
        substring 0 fillLen (repeatString fillLen padString) ++ s
    end.

(** [Math.max] on two numbers. *)
Definition Math_max (x y : Q) : Q := if Qle_bool x y then y else x.

End JS.

(* ------------------------------------------------------------------ *)
(** ** Data *)

Inductive source_file := SessionTsx | Part001.

Inductive Role := RoleUser | RoleInterviewer.

(** [TranscriptionTurn] of [types.ts] *)
Record TranscriptionTurn := { role : Role; text : string }.

(** The object held by [transcriptionRef] *)
Record Transcription := { user : string; model : string }.

(** The arguments of the declared tool; either field may be missing. *)
Record FeedbackArgs := { cue : option string; sentiment : option string }.

Record FunctionCall := {
  fc_id : string;
  fc_name : string;
  fc_args : option FeedbackArgs
}.

(** An inline audio chunk, with what [decodeAudioData (decode data)]
    makes of it: an [AudioBuffer] of some duration, or an exception. *)
Inductive AudioChunk :=
| Undecodable
| Decodes (duration : Q).

(** The parts of a [LiveServerMessage] the handler reads. *)
Record LiveServerMessage := {
  toolCall : option (list FunctionCall);
  outputTranscription : option string;
  inputTranscription : option string;
  turnComplete : bool;
  inlineAudio : option AudioChunk;
  interrupted : bool
}.

Inductive PcmBlob := createPcmBlob (inputData : list Q).

Inductive Media :=
| PcmMedia (blob : PcmBlob)
| JpegMedia (base64Data : string).

Inductive effect :=
| SessionClose (session : nat)
| AudioContextClose (ctx : nat)
| ClearInterval (id : nat)
| ClearTimeout (id : nat)
| SetTimeout (id : nat) (ms : N)
| SourceStart (node : nat) (when : Q) (duration : Q)
| SourceStop (node : nat)
| sendRealtimeInput (media : Media)
| sendToolResponse (id : string) (name : string)
| DrawImage (width height : nat)
| ToBlob (job : nat).

Record AudioContexts := { input : nat; output : nat }.
Record Video := { videoWidth : nat; videoHeight : nat }.
Record Canvas := { has2d : bool; width : nat; height : nat }.

(** React state of the component *)
Record React := {
  isReady : bool;
  isListening : bool;
  isMuted : bool;
  currentTranscript : list TranscriptionTurn;
  secondsElapsed : nat;
  visualFeedback : option FeedbackArgs
}.

(** The refs of the component *)
Record Refs := {
  feedbackTimeoutRef : option nat;
  audioContextRef : option AudioContexts;
  sessionRef : option nat;
  nextStartTimeRef : Q;
  sourcesRef : list nat;
  transcriptionRef : Transcription;
  videoRef : option Video;
  canvasRef : option Canvas;
  frameIntervalRef : option nat;
  timerIntervalRef : option nat;
  isMutedRef : bool
}.

(** What the browser keeps: the last timer id and the last node id it
    handed out, and the frame encodes started by [toBlob] whose callback
    has not run yet. *)
Record Browser := {
  timerSeq : nat;
  nodeSeq : nat;
  frameSeq : nat;
  framesInFlight : list nat
}.

Record state := { react : React; refs : Refs; browser : Browser }.

(* ------------------------------------------------------------------ *)
(** ** Assignments

    [set_f x st] is the state after the assignment [f := x] (for a ref,
    [f.current = x]; for React state, [setF (x)]). *)

Definition on_react (f : React -> React) (st : state) : state :=
  {| react := f (react st); refs := refs st; browser := browser st |}.

Definition on_refs (f : Refs -> Refs) (st : state) : state :=
  {| react := react st; refs := f (refs st); browser := browser st |}.

Definition on_browser (f : Browser -> Browser) (st : state) : state :=
  {| react := react st; refs := refs st; browser := f (browser st) |}.

Definition set_isReady (x : bool) : state -> state :=
  on_react (fun r =>
  {| isReady := x;
     isListening := isListening r;
     isMuted := isMuted r;
     currentTranscript := currentTranscript r;
     secondsElapsed := secondsElapsed r;
     visualFeedback := visualFeedback r |}).

Definition set_isListening (x : bool) : state -> state :=
  on_react (fun r =>
  {| isReady := isReady r;
     isListening := x;
     isMuted := isMuted r;
     currentTranscript := currentTranscript r;
     secondsElapsed := secondsElapsed r;
     visualFeedback := visualFeedback r |}).

Definition set_isMuted (x : bool) : state -> state :=
  on_react (fun r =>
  {| isReady := isReady r;
     isListening := isListening r;
     isMuted := x;
     currentTranscript := currentTranscript r;
     secondsElapsed := secondsElapsed r;
     visualFeedback := visualFeedback r |}).

Definition set_currentTranscript (x : list TranscriptionTurn) : state -> state :=
  on_react (fun r =>
  {| isReady := isReady r;
     isListening := isListening r;
     isMuted := isMuted r;
     currentTranscript := x;
     secondsElapsed := secondsElapsed r;
     visualFeedback := visualFeedback r |}).

Definition set_secondsElapsed (x : nat) : state -> state :=
  on_react (fun r =>
  {| isReady := isReady r;
     isListening := isListening r;
     isMuted := isMuted r;
     currentTranscript := currentTranscript r;
     secondsElapsed := x;
     visualFeedback := visualFeedback r |}).

Definition set_visualFeedback (x : option FeedbackArgs) : state -> state :=
  on_react (fun r =>
  {| isReady := isReady r;
     isListening := isListening r;
     isMuted := isMuted r;
     currentTranscript := currentTranscript r;
     secondsElapsed := secondsElapsed r;
     visualFeedback := x |}).

Definition set_feedbackTimeoutRef (x : option nat) : state -> state :=
  on_refs (fun r =>
  {| feedbackTimeoutRef := x;
     audioContextRef := audioContextRef r;
     sessionRef := sessionRef r;
     nextStartTimeRef := nextStartTimeRef r;
     sourcesRef := sourcesRef r;
     transcriptionRef := transcriptionRef r;
     videoRef := videoRef r;
     canvasRef := canvasRef r;
     frameIntervalRef := frameIntervalRef r;
     timerIntervalRef := timerIntervalRef r;
     isMutedRef := isMutedRef r |}).

Definition set_audioContextRef (x : option AudioContexts) : state -> state :=
  on_refs (fun r =>
  {| feedbackTimeoutRef := feedbackTimeoutRef r;
     audioContextRef := x;
     sessionRef := sessionRef r;
     nextStartTimeRef := nextStartTimeRef r;
     sourcesRef := sourcesRef r;
     transcriptionRef := transcriptionRef r;
     videoRef := videoRef r;
     canvasRef := canvasRef r;
     frameIntervalRef := frameIntervalRef r;
     timerIntervalRef := timerIntervalRef r;
     isMutedRef := isMutedRef r |}).

Definition set_sessionRef (x : option nat) : state -> state :=
  on_refs (fun r =>
  {| feedbackTimeoutRef := feedbackTimeoutRef r;
     audioContextRef := audioContextRef r;
     sessionRef := x;
     nextStartTimeRef := nextStartTimeRef r;
     sourcesRef := sourcesRef r;
     transcriptionRef := transcriptionRef r;
     videoRef := videoRef r;
     canvasRef := canvasRef r;
     frameIntervalRef := frameIntervalRef r;
     timerIntervalRef := timerIntervalRef r;
     isMutedRef := isMutedRef r |}).

Definition set_nextStartTimeRef (x : Q) : state -> state :=
  on_refs (fun r =>
  {| feedbackTimeoutRef := feedbackTimeoutRef r;
     audioContextRef := audioContextRef r;
     sessionRef := sessionRef r;
     nextStartTimeRef := x;
     sourcesRef := sourcesRef r;
     transcriptionRef := transcriptionRef r;
     videoRef := videoRef r;
     canvasRef := canvasRef r;
     frameIntervalRef := frameIntervalRef r;
     timerIntervalRef := timerIntervalRef r;
     isMutedRef := isMutedRef r |}).

Definition set_sourcesRef (x : list nat) : state -> state :=
  on_refs (fun r =>
  {| feedbackTimeoutRef := feedbackTimeoutRef r;
     audioContextRef := audioContextRef r;
     sessionRef := sessionRef r;
     nextStartTimeRef := nextStartTimeRef r;
     sourcesRef := x;
     transcriptionRef := transcriptionRef r;
     videoRef := videoRef r;
     canvasRef := canvasRef r;
     frameIntervalRef := frameIntervalRef r;
     timerIntervalRef := timerIntervalRef r;
     isMutedRef := isMutedRef r |}).

Definition set_transcriptionRef (x : Transcription) : state -> state :=
  on_refs (fun r =>
  {| feedbackTimeoutRef := feedbackTimeoutRef r;
     audioContextRef := audioContextRef r;
     sessionRef := sessionRef r;
     nextStartTimeRef := nextStartTimeRef r;
     sourcesRef := sourcesRef r;
     transcriptionRef := x;
     videoRef := videoRef r;
     canvasRef := canvasRef r;
     frameIntervalRef := frameIntervalRef r;
     timerIntervalRef := timerIntervalRef r;
     isMutedRef := isMutedRef r |}).

Definition set_canvasRef (x : option Canvas) : state -> state :=
  on_refs (fun r =>
  {| feedbackTimeoutRef := feedbackTimeoutRef r;
     audioContextRef := audioContextRef r;
     sessionRef := sessionRef r;
     nextStartTimeRef := nextStartTimeRef r;
     sourcesRef := sourcesRef r;
     transcriptionRef := transcriptionRef r;
     videoRef := videoRef r;
     canvasRef := x;
     frameIntervalRef := frameIntervalRef r;
     timerIntervalRef := timerIntervalRef r;
     isMutedRef := isMutedRef r |}).

Definition set_frameIntervalRef (x : option nat) : state -> state :=
  on_refs (fun r =>
  {| feedbackTimeoutRef := feedbackTimeoutRef r;
     audioContextRef := audioContextRef r;
     sessionRef := sessionRef r;
     nextStartTimeRef := nextStartTimeRef r;
     sourcesRef := sourcesRef r;
     transcriptionRef := transcriptionRef r;
     videoRef := videoRef r;
     canvasRef := canvasRef r;
     frameIntervalRef := x;
     timerIntervalRef := timerIntervalRef r;
     isMutedRef := isMutedRef r |}).

Definition set_timerIntervalRef (x : option nat) : state -> state :=
  on_refs (fun r =>
  {| feedbackTimeoutRef := feedbackTimeoutRef r;
     audioContextRef := audioContextRef r;
     sessionRef := sessionRef r;
     nextStartTimeRef := nextStartTimeRef r;
     sourcesRef := sourcesRef r;
     transcriptionRef := transcriptionRef r;
     videoRef := videoRef r;
     canvasRef := canvasRef r;
     frameIntervalRef := frameIntervalRef r;
     timerIntervalRef := x;
     isMutedRef := isMutedRef r |}).

Definition set_isMutedRef (x : bool) : state -> state :=
  on_refs (fun r =>
  {| feedbackTimeoutRef := feedbackTimeoutRef r;
     audioContextRef := audioContextRef r;
     sessionRef := sessionRef r;
     nextStartTimeRef := nextStartTimeRef r;
     sourcesRef := sourcesRef r;
     transcriptionRef := transcriptionRef r;
     videoRef := videoRef r;
     canvasRef := canvasRef r;
     frameIntervalRef := frameIntervalRef r;
     timerIntervalRef := timerIntervalRef r;
     isMutedRef := x |}).

Definition set_timerSeq (x : nat) : state -> state :=
  on_browser (fun r =>
  {| timerSeq := x;
     nodeSeq := nodeSeq r;
     frameSeq := frameSeq r;
     framesInFlight := framesInFlight r |}).

Definition set_nodeSeq (x : nat) : state -> state :=
  on_browser (fun r =>
  {| timerSeq := timerSeq r;
     nodeSeq := x;
     frameSeq := frameSeq r;
     framesInFlight := framesInFlight r |}).

Definition set_frameSeq (x : nat) : state -> state :=
  on_browser (fun r =>
  {| timerSeq := timerSeq r;
     nodeSeq := nodeSeq r;
     frameSeq := x;
     framesInFlight := framesInFlight r |}).

Definition set_framesInFlight (x : list nat) : state -> state :=
  on_browser (fun r =>
  {| timerSeq := timerSeq r;
     nodeSeq := nodeSeq r;
     frameSeq := frameSeq r;
     framesInFlight := x |}).

(* ------------------------------------------------------------------ *)
(** ** Callbacks and their results *)

Record result := { final : state; emitted : list effect; threw : bool }.

(** Nothing more to do. *)
Definition done (st : state) : result :=
  {| final := st; emitted := []; threw := false |}.

(** Calls made on the outside world, in order. *)
Definition emit (es : list effect) (st : state) : result :=
  {| final := st; emitted := es; threw := false |}.

(** An exception leaves the callback at once; what was assigned before
    stays assigned. *)
Definition throw (st : state) : result :=
  {| final := st; emitted := []; threw := true |}.

(** Two statements one after the other. *)
Definition andThen (f g : state -> result) (st : state) : result :=
  let r := f st in
  if threw r then r
  else
    let r' := g (final r) in
    {| final := final r'; emitted := emitted r ++ emitted r'; threw := threw r' |}.

Declare Scope js_scope.
Delimit Scope js_scope with js.
Notation "f ;; g" := (andThen f g) (at level 61, right associativity) : js_scope.
Local Open Scope js_scope.

(** An assignment as a statement. *)
Definition assign (f : state -> state) (st : state) : result := done (f st).

(** Shorthands for the refs and state read most often. *)
Definition nextStart (st : state) : Q := nextStartTimeRef (refs st).
Definition sources (st : state) : list nat := sourcesRef (refs st).
Definition transcription (st : state) : Transcription := transcriptionRef (refs st).
Definition transcript (st : state) : list TranscriptionTurn := currentTranscript (react st).

(** *** [formatTime] and [handleFinish] *)

Definition formatTime (totalSeconds : nat) : string :=
  let mins := totalSeconds / 60 in
  let secs := totalSeconds mod 60 in
  JS.padStart 2 "0" (JS.toString mins) ++ ":" ++ JS.padStart 2 "0" (JS.toString secs).

(** What [handleFinish] passes to [onComplete]. *)
Definition handleFinish (st : state) : list TranscriptionTurn * string :=
  (currentTranscript (react st), formatTime (secondsElapsed (react st))).

(** *** [cleanup] *)

Definition closeSession (st : state) : result :=
  match sessionRef (refs st) with
  | Some s => emit [SessionClose s] (set_sessionRef None st)
  | None => done st
  end.

Definition closeAudioContexts (st : state) : result :=
  match audioContextRef (refs st) with
  | Some c =>
      emit [AudioContextClose (input c); AudioContextClose (output c)]
           (set_audioContextRef None st)
  | None => done st
  end.

Definition clearFrameInterval (st : state) : result :=
  match frameIntervalRef (refs st) with
  | Some (S i) => emit [ClearInterval (S i)] (set_frameIntervalRef None st)
  | _ => done st
  end.

Definition clearTimerInterval (st : state) : result :=
  match timerIntervalRef (refs st) with
  | Some (S i) => emit [ClearInterval (S i)] (set_timerIntervalRef None st)
  | _ => done st
  end.

Definition clearFeedbackTimeout (st : state) : result :=
  match feedbackTimeoutRef (refs st) with
  | Some (S i) => emit [ClearTimeout (S i)] st
  | _ => done st
  end.

(** [sourcesRef.current.forEach (s => { try { s.stop(); } catch (e) {} });
     sourcesRef.current.clear (); nextStartTimeRef.current = 0;] *)
Definition stopAllSources (st : state) : result :=
  emit (map SourceStop (sourcesRef (refs st)))
       (set_nextStartTimeRef 0%Q (set_sourcesRef [] st)).

Definition cleanup : state -> result :=
  closeSession ;;
  closeAudioContexts ;;
  clearFrameInterval ;;
  clearTimerInterval ;;
  clearFeedbackTimeout ;;
  stopAllSources ;;
  assign (set_isReady false) ;;
  assign (set_isListening false).

(** *** Capture: [scriptProcessor.onaudioprocess] *)

Definition onaudioprocess (inputData : list Q) (st : state) : result :=
  if isMutedRef (refs st) then done st
  else emit [sendRealtimeInput (PcmMedia (createPcmBlob inputData))] st.

(** *** Capture: the frame interval callback and the [toBlob] callback *)

(** The second guard of the interval callback: [if (ctx)] in
    [InterviewSession.tsx], [if (ctx && video.videoWidth)] in [part_001]. *)
Definition frameGuard (v : source_file) (video : Video) (canvas : Canvas) : bool :=
  match v with
  | SessionTsx => has2d canvas
  | Part001 => has2d canvas && negb (Nat.eqb (videoWidth video) 0)
  end.

Definition frameTick (v : source_file) (st : state) : result :=
  match videoRef (refs st), canvasRef (refs st), sessionRef (refs st) with
  | Some video, Some canvas, Some _ =>
      if frameGuard v video canvas then
        let canvas' := {| has2d := has2d canvas;
                          width := videoWidth video;
                          height := videoHeight video |} in
        let job := S (frameSeq (browser st)) in
        emit [DrawImage (width canvas') (height canvas'); ToBlob job]
             (set_framesInFlight (framesInFlight (browser st) ++ [job])
               (set_frameSeq job (set_canvasRef (Some canvas') st)))
      else done st
  | _, _, _ => done st
  end.

(** The encode [job] is over: [blob] is the base64 text of the JPEG, or
    nothing when the browser could not produce one. *)
Definition toBlobCallback (job : nat) (blob : option string) (st : state) : result :=
  let st' := set_framesInFlight
               (filter (fun j => negb (Nat.eqb j job)) (framesInFlight (browser st))) st in
  match blob with
  | Some base64Data => emit [sendRealtimeInput (JpegMedia base64Data)] st'
  | None => done st'
  end.

(** *** The inbound handler: [onmessage] *)

(** [Set.prototype.add] and [Set.prototype.delete], on a set kept in
    insertion order. *)
Definition setAdd (x : nat) (s : list nat) : list nat :=
  if existsb (Nat.eqb x) s then s else s ++ [x].

Definition setDelete (x : nat) (s : list nat) : list nat :=
  filter (fun y => negb (Nat.eqb y x)) s.

(** [setVisualFeedback (args);
     if (feedbackTimeoutRef.current) clearTimeout (feedbackTimeoutRef.current);
     feedbackTimeoutRef.current = window.setTimeout (..., ms);] *)
Definition publishCue (args : option FeedbackArgs) (ms : N) (st : state) : result :=
  let st1 := set_visualFeedback args st in
  let cleared :=
    match feedbackTimeoutRef (refs st1) with
    | Some (S i) => [ClearTimeout (S i)]
    | _ => []
    end in
  let id := S (timerSeq (browser st1)) in
  emit (cleared ++ [SetTimeout id ms])
       (set_feedbackTimeoutRef (Some id) (set_timerSeq id st1)).

(** [sessionPromise.then (s => s.sendToolResponse ({ functionResponses:
     { id: fc.id, name: fc.name, response: { result: "ok" } } }))] *)
Definition respond (fc : FunctionCall) : state -> result :=
  emit [sendToolResponse (fc_id fc) (fc_name fc)].

(** The body of the loop over [msg.toolCall.functionCalls].  In
    [InterviewSession.tsx] the arguments are destructured, which throws
    a [TypeError] when [fc.args] is missing; [part_001] passes them on
    as they are. *)
Definition handleCall (v : source_file) (fc : FunctionCall) : state -> result :=
  if String.eqb (fc_name fc) "updateVisualFeedback" then
    match v with
    | SessionTsx =>
        match fc_args fc with
        | None => throw
        | Some a =>
            publishCue (Some {| cue := cue a; sentiment := sentiment a |}) 5000%N ;;
            respond fc
        end
    | Part001 => publishCue (fc_args fc) 4000%N ;; respond fc
    end
  else done.

Fixpoint forEachCall (v : source_file) (fcs : list FunctionCall) : state -> result :=
  match fcs with
  | [] => done
  | fc :: rest => handleCall v fc ;; forEachCall v rest
  end.

Definition toolCallBlock (v : source_file) (msg : LiveServerMessage) : state -> result :=
  match toolCall msg with
  | Some fcs => forEachCall v fcs
  | None => done
  end.

Definition appendModel (t : string) (st : state) : state :=
  set_transcriptionRef
    {| user := user (transcription st); model := model (transcription st) ++ t |} st.

Definition appendUser (t : string) (st : state) : state :=
  set_transcriptionRef
    {| user := user (transcription st) ++ t; model := model (transcription st) |} st.

(** [if (outputTranscription) ... else if (inputTranscription) ...] *)
Definition transcriptionBlock (msg : LiveServerMessage) : state -> result :=
  match outputTranscription msg with
  | Some t => assign (appendModel t)
  | None =>
      match inputTranscription msg with
      | Some t => assign (appendUser t)
      | None => done
      end
  end.

(** The entries a turn boundary adds to the history. *)
Definition newTurns (userTurn modelTurn : string) : list TranscriptionTurn :=
  (if JS.truthy userTurn then [{| role := RoleUser; text := userTurn |}] else []) ++
  (if JS.truthy modelTurn then [{| role := RoleInterviewer; text := modelTurn |}] else []).

Definition turnCompleteBlock (msg : LiveServerMessage) (st : state) : result :=
  if turnComplete msg then
    let userTurn := JS.trim (user (transcription st)) in
    let modelTurn := JS.trim (model (transcription st)) in
    let st1 :=
      if JS.truthy userTurn || JS.truthy modelTurn
      then set_currentTranscript (transcript st ++ newTurns userTurn modelTurn) st
      else st in
    done (set_transcriptionRef {| user := ""; model := "" |} st1)
  else done st.

(** [if (base64Audio) { ... }]; [clock] is [currentTime] of the output
    context when the block is entered. *)
Definition audioBlock (clock : Q) (msg : LiveServerMessage) (st : state) : result :=
  match inlineAudio msg with
  | None => done st
  | Some chunk =>
      let st1 := set_nextStartTimeRef (JS.Math_max (nextStart st) clock) st in
      match chunk with
      | Undecodable => throw st1
      | Decodes duration =>
          let source := S (nodeSeq (browser st1)) in
          emit [SourceStart source (nextStart st1) duration]
               (set_sourcesRef (setAdd source (sources st1))
                 (set_nextStartTimeRef (nextStart st1 + duration)%Q
                   (set_nodeSeq source st1)))
      end
  end.

(** [if (msg.serverContent?.interrupted) { ... }]; only [part_001] also
    empties the model side of [transcriptionRef]. *)
Definition interruptedBlock (v : source_file) (msg : LiveServerMessage) : state -> result :=
  if interrupted msg then
    match v with
    | SessionTsx => stopAllSources
    | Part001 =>
        stopAllSources ;;
        assign (fun st =>
          set_transcriptionRef {| user := user (transcription st); model := "" |} st)
    end
  else done.

Definition onmessage (v : source_file) (clock : Q) (msg : LiveServerMessage)
    (st : state) : result :=
  match audioContextRef (refs st) with
  | None => done st
  | Some _ =>
      (toolCallBlock v msg ;;
       transcriptionBlock msg ;;
       turnCompleteBlock msg ;;
       audioBlock clock msg ;;
       interruptedBlock v msg) st
  end.

(** *** The remaining callbacks *)

(** [source.addEventListener ('ended', () => sourcesRef.current.delete (source))] *)
Definition onended (source : nat) (st : state) : result :=
  done (set_sourcesRef (setDelete source (sources st)) st).

(** The session timer: [setSecondsElapsed (prev => prev + 1)] *)
Definition onsecond (st : state) : result :=
  done (set_secondsElapsed (secondsElapsed (react st) + 1) st).

(** The cue timeout: [setVisualFeedback (null)] *)
Definition onfeedbackTimeout (st : state) : result :=
  done (set_visualFeedback None st).

(** The mute button, [setIsMuted (!isMuted)], and the effect that copies
    the new value into [isMutedRef]. *)
Definition toggleMute (st : state) : result :=
  let m := negb (isMuted (react st)) in
  done (set_isMutedRef m (set_isMuted m st)).

(* ------------------------------------------------------------------ *)
(** ** Runs of the session *)

Inductive event :=
| Message (clock : Q) (msg : LiveServerMessage)
| AudioProcess (inputData : list Q)
| FrameTick
| ToBlobDone (job : nat) (blob : option string)
| Ended (source : nat)
| Second
| FeedbackTimeout
| MuteClick
| Cleanup.

Definition step (v : source_file) (e : event) : state -> result :=
  match e with
  | Message clock msg => onmessage v clock msg
  | AudioProcess inputData => onaudioprocess inputData
  | FrameTick => frameTick v
  | ToBlobDone job blob => toBlobCallback job blob
  | Ended source => onended source
  | Second => onsecond
  | FeedbackTimeout => onfeedbackTimeout
  | MuteClick => toggleMute
  | Cleanup => cleanup
  end.

(** Each event runs its callback to the end (or to its exception) before
    the next one starts; [run] returns the last state and everything
    that was emitted on the way. *)
Fixpoint run (v : source_file) (es : list event) (st : state) : state * list effect :=
  match es with
  | [] => (st, [])
  | e :: rest =>
      let r := step v e st in
      let '(st', out) := run v rest (final r) in
      (st', emitted r ++ out)
  end.

(** A session that has not been started: what the component holds right
    after it is mounted. *)
Definition mounted : state :=
  {| react := {| isReady := false; isListening := false; isMuted := false;
                 currentTranscript := []; secondsElapsed := 0;
                 visualFeedback := None |};
     refs := {| feedbackTimeoutRef := None; audioContextRef := None;
                sessionRef := None; nextStartTimeRef := 0%Q; sourcesRef := [];
                transcriptionRef := {| user := ""; model := "" |};
                videoRef := None; canvasRef := None;
                frameIntervalRef := None; timerIntervalRef := None;
                isMutedRef := false |};
     browser := {| timerSeq := 0; nodeSeq := 0; frameSeq := 0;
                   framesInFlight := [] |} |}.

(** The same once the channel is open: contexts, session, video and
    canvas are in place and both timers run. *)
Definition opened : state :=
  {| react := {| isReady := true; isListening := true; isMuted := false;
                 currentTranscript := []; secondsElapsed := 0;
                 visualFeedback := None |};
     refs := {| feedbackTimeoutRef := None;
                audioContextRef := Some {| input := 1; output := 2 |};
                sessionRef := Some 3; nextStartTimeRef := 0%Q; sourcesRef := [];
                transcriptionRef := {| user := ""; model := "" |};
                videoRef := Some {| videoWidth := 1280; videoHeight := 720 |};
                canvasRef := Some {| has2d := true; width := 300; height := 150 |};
                frameIntervalRef := Some 1; timerIntervalRef := Some 2;
                isMutedRef := false |};
     browser := {| timerSeq := 2; nodeSeq := 0; frameSeq := 0;
                   framesInFlight := [] |} |}.

(** Message builders for examples. *)
Definition audioMessage (duration : Q) : LiveServerMessage :=
  {| toolCall := None; outputTranscription := None; inputTranscription := None;
     turnComplete := false; inlineAudio := Some (Decodes duration);
     interrupted := false |}.

Definition userDelta (t : string) : LiveServerMessage :=
  {| toolCall := None; outputTranscription := None; inputTranscription := Some t;
     turnComplete := false; inlineAudio := None; interrupted := false |}.

Definition modelDelta (t : string) : LiveServerMessage :=
  {| toolCall := None; outputTranscription := Some t; inputTranscription := None;
     turnComplete := false; inlineAudio := None; interrupted := false |}.

Definition turnBoundary : LiveServerMessage :=
  {| toolCall := None; outputTranscription := None; inputTranscription := None;
     turnComplete := true; inlineAudio := None; interrupted := false |}.

Definition interruption : LiveServerMessage :=
  {| toolCall := None; outputTranscription := None; inputTranscription := None;
     turnComplete := false; inlineAudio := None; interrupted := true |}.

Definition toolMessage (fcs : list FunctionCall) : LiveServerMessage :=
  {| toolCall := Some fcs; outputTranscription := None; inputTranscription := None;
     turnComplete := false; inlineAudio := None; interrupted := false |}.

(** A call of a tool the session never declared. *)
Definition strayCall : FunctionCall :=
  {| fc_id := "call-7"; fc_name := "endInterview"; fc_args := None |}.

(** A call of the declared tool, with both fields and with none. *)
Definition cueCall : FunctionCall :=
  {| fc_id := "call-8"; fc_name := "updateVisualFeedback";
     fc_args := Some {| cue := Some "Good eye contact"; sentiment := Some "positive" |} |}.

Definition bareCall : FunctionCall :=
  {| fc_id := "call-9"; fc_name := "updateVisualFeedback";
     fc_args := Some {| cue := None; sentiment := None |} |}.

(** Chunks of half a second arriving at 0 s, 0.3 s and 1.6 s. *)
Definition threeChunks : list event :=
  [Message 0%Q (audioMessage (1#2)%Q);
   Message (3#10)%Q (audioMessage (1#2)%Q);
   Message (16#10)%Q (audioMessage (1#2)%Q)].

(** Two chunks of half a second have been enqueued at 0 s and neither
    has ended. *)
Definition playing : state :=
  fst (run SessionTsx [Message 0%Q (audioMessage (1#2)%Q);
                       Message 0%Q (audioMessage (1#2)%Q)] opened).

(** One frame has been captured and its encode is still in flight. *)
Definition oneInFlight : state := final (frameTick SessionTsx opened).

(** A cue has been shown, so [feedbackTimeoutRef] holds a timer id. *)
Definition cueShown : state :=
  final (onmessage SessionTsx 0%Q (toolMessage [cueCall]) opened).

(** The two buffers in the middle of an exchange. *)
Definition midExchange : state :=
  set_transcriptionRef {| user := "I think"; model := "Tell me about" |} opened.

(* ------------------------------------------------------------------ *)
(** ** Observations on runs *)

(** The schedule: start time and duration of every unit handed to the
    output context, in order. *)
Fixpoint schedule (out : list effect) : list (Q * Q) :=
  match out with
  | [] => []
  | SourceStart _ when duration :: rest => (when, duration) :: schedule rest
  | _ :: rest => schedule rest
  end.

(** The acknowledgements sent, as (invocation id, tool name), in order. *)
Fixpoint acks (out : list effect) : list (string * string) :=
  match out with
  | [] => []
  | sendToolResponse id name :: rest => (id, name) :: acks rest
  | _ :: rest => acks rest
  end.

(** The units stopped, in order. *)
Fixpoint stopped (out : list effect) : list nat :=
  match out with
  | [] => []
  | SourceStop node :: rest => node :: stopped rest
  | _ :: rest => stopped rest
  end.

(** The outbound media frames, in order. *)
Fixpoint sentMedia (out : list effect) : list Media :=
  match out with
  | [] => []
  | sendRealtimeInput m :: rest => m :: sentMedia rest
  | _ :: rest => sentMedia rest
  end.

(** The outbound audio frames, in order. *)
Definition audioFrames (out : list effect) : list PcmBlob :=
  flat_map (fun m => match m with PcmMedia b => [b] | JpegMedia _ => [] end)
           (sentMedia out).

(** The one tool the session declares. *)
Definition isDeclared (fc : FunctionCall) : bool :=
  String.eqb (fc_name fc) "updateVisualFeedback".

(** A call of the declared tool that comes without arguments. *)
Definition missingArgs (fc : FunctionCall) : bool :=
  isDeclared fc && match fc_args fc with None => true | Some _ => false end.

(** Whether the loop over the function calls of [msg] ends in the
    [TypeError] of [InterviewSession.tsx]. *)
Definition callsThrow (v : source_file) (msg : LiveServerMessage) : bool :=
  match v, toolCall msg with
  | SessionTsx, Some fcs => existsb missingArgs fcs
  | _, _ => false
  end.

(** The text a message adds to the user's buffer and to the model's. *)
Definition appendedUser (msg : LiveServerMessage) : string :=
  match outputTranscription msg, inputTranscription msg with
  | None, Some t => t
  | _, _ => ""
  end.

Definition appendedModel (msg : LiveServerMessage) : string :=
  match outputTranscription msg with
  | Some t => t
  | None => ""
  end.

(** Strings one after the other, in order. *)
Definition concatAll (l : list string) : string := fold_right append "" l.

(** What [toolCallBlock] never touches. *)
Definition playbackView (st : state) :=
  (audioContextRef (refs st), transcriptionRef (refs st),
   currentTranscript (react st), nextStartTimeRef (refs st),
   sourcesRef (refs st), nodeSeq (browser st)).

(** The handler past the tool-call loop. *)
Definition afterToolCalls (v : source_file) (clock : Q) (msg : LiveServerMessage)
    : state -> result :=
  transcriptionBlock msg ;;
  turnCompleteBlock msg ;;
  audioBlock clock msg ;;
  interruptedBlock v msg.

(** [msg] without its user-speech transcription. *)
Definition withoutInput (msg : LiveServerMessage) : LiveServerMessage :=
  {| toolCall := toolCall msg;
     outputTranscription := outputTranscription msg;
     inputTranscription := None;
     turnComplete := turnComplete msg;
     inlineAudio := inlineAudio msg;
     interrupted := interrupted msg |}.

(** Messages as events, each with the clock reading at its arrival. *)
Definition messages (ms : list (Q * LiveServerMessage)) : list event :=
  map (fun cm => Message (fst cm) (snd cm)) ms.

(** Events that cancel playback: an interruption, and teardown. *)
Definition cancels (e : event) : bool :=
  match e with
  | Message _ msg => interrupted msg
  | Cleanup => true
  | _ => false
  end.

(** Events that hand a chunk to the playback path. *)
Definition carriesAudio (e : event) : bool :=
  match e with
  | Message _ msg => match inlineAudio msg with Some _ => true | None => false end
  | _ => false
  end.

(** The chunks a run hands to the playback path, each with the clock
    reading at its arrival and the duration of its decoded buffer. *)
Definition enqueued (es : list event) : list (Q * Q) :=
  flat_map (fun e =>
    match e with
    | Message clock msg =>
        match inlineAudio msg with
        | Some (Decodes d) => [(clock, d)]
        | _ => []
        end
    | _ => []
    end) es.

(** Events whose callback runs to its end without cancelling playback:
    no interruption, no teardown, no exception in the handler. *)
Definition playsOn (v : source_file) (e : event) : Prop :=
  match e with
  | Message _ msg =>
      interrupted msg = false /\ callsThrow v msg = false /\
      inlineAudio msg <> Some Undecodable
  | Cleanup => False
  | _ => True
  end.

(** Events that neither hand a chunk to the playback path nor tear the
    session down. *)
Definition quiet (e : event) : bool :=
  negb (carriesAudio e) && match e with Cleanup => false | _ => true end.

(** Decoded buffers have a duration that is not negative. *)
Definition durationOk (e : event) : Prop :=
  match e with
  | Message _ msg =>
      match inlineAudio msg with
      | Some (Decodes d) => (0 <= d)%Q
      | _ => True
      end
  | _ => True
  end.

(** From [cursor] on, every unit starts no earlier than the end of the
    unit before it. *)
Fixpoint backToBack (cursor : Q) (units : list (Q * Q)) : Prop :=
  match units with
  | [] => True
  | (start, duration) :: rest =>
      (cursor <= start)%Q /\ backToBack (start + duration)%Q rest
  end.

Fixpoint nonDecreasing (starts : list Q) : Prop :=
  match starts with
  | a :: (b :: _) as rest => (a <= b)%Q /\ nonDecreasing rest
  | _ => True
  end.

(** The frame interval callback would capture: both elements and the
    session are there and the guard on the 2D context holds. *)
Definition captureReady (v : source_file) (st : state) : bool :=
  match videoRef (refs st), canvasRef (refs st), sessionRef (refs st) with
  | Some video, Some canvas, Some _ => frameGuard v video canvas
  | _, _, _ => false
  end.

(** The calls the tool-call loop makes. *)
Definition isCallEffect (e : effect) : bool :=
  match e with
  | ClearTimeout _ | SetTimeout _ _ | sendToolResponse _ _ => true
  | _ => false
  end.

(** The calls the playback path makes. *)
Definition isPlaybackEffect (e : effect) : bool :=
  match e with
  | SourceStart _ _ _ | SourceStop _ => true
  | _ => false
  end.

(** The acknowledgement owed to a call. *)
Definition ackOf (fc : FunctionCall) : string * string := (fc_id fc, fc_name fc).

(** The release calls of teardown. *)
Definition isRelease (e : effect) : bool :=
  match e with
  | SessionClose _ | AudioContextClose _ | ClearInterval _ | ClearTimeout _
  | SourceStop _ => true
  | _ => false
  end.

(* ------------------------------------------------------------------ *)
(** ** What the specification says, in its own words

    These definitions follow the wording of the specification; the
    theorems below compare them with the callbacks above. *)

Module Spec.

(** A decimal numeral left-padded with zeros to [digits] digits. *)
Definition leftPadZeros (digits : nat) (numeral : string) : string :=
  JS.repeatString (digits - String.length numeral) "0" ++ numeral.

(** Elapsed seconds as MM:SS. *)
Definition mmss (n : nat) : string :=
  leftPadZeros 2 (JS.toString (n / 60)) ++ ":" ++ leftPadZeros 2 (JS.toString (n mod 60)).

(** The decimal digit [d], for [d] below ten. *)
Definition digit (d : nat) : ascii := ascii_of_nat (48 + d).

(** MM:SS digit by digit, for a session shorter than a hundred minutes. *)
Definition clockFace (n : nat) : string :=
  String (digit (n / 600))
    (String (digit ((n / 60) mod 10))
      (String ":"
        (String (digit ((n mod 60) / 10))
          (String (digit (n mod 10)) EmptyString)))).

(** The messages since the last turn boundary or interruption. *)
Fixpoint sinceLastReset (seen : list LiveServerMessage) (msgs : list LiveServerMessage)
    : list LiveServerMessage :=
  match msgs with
  | [] => seen
  | m :: rest =>
      if turnComplete m || interrupted m then sinceLastReset [] rest
      else sinceLastReset (seen ++ [m]) rest
  end.

(** A speaker's delta in a message. *)
Definition deltaOf (r : Role) (m : LiveServerMessage) : string :=
  match r with
  | RoleUser => match inputTranscription m with Some t => t | None => "" end
  | RoleInterviewer => match outputTranscription m with Some t => t | None => "" end
  end.

(** The trimmed concatenation, in arrival order, of a speaker's deltas
    since the last boundary or interruption. *)
Definition turnText (r : Role) (msgs : list LiveServerMessage) : string :=
  JS.trim (concatAll (map (deltaOf r) (sinceLastReset [] msgs))).

(** The entries a turn boundary is to add after [msgs]: the user's turn,
    then the agent's, each only when its text is not empty. *)
Definition boundaryTurns (msgs : list LiveServerMessage) : list TranscriptionTurn :=
  (match turnText RoleUser msgs with
   | EmptyString => []
   | t => [{| role := RoleUser; text := t |}]
   end) ++
  (match turnText RoleInterviewer msgs with
   | EmptyString => []
   | t => [{| role := RoleInterviewer; text := t |}]
   end).

(** [enqueue], chunk after chunk: a chunk starts at
    [max (nextAvailableTime, currentOutputClock)], and
    [nextAvailableTime] then advances by the duration of its buffer. *)
Fixpoint enqueueAll (nextAvailableTime : Q) (chunks : list (Q * Q)) : list (Q * Q) :=
  match chunks with
  | [] => []
  | (currentOutputClock, duration) :: rest =>
      let start := JS.Math_max nextAvailableTime currentOutputClock in
      (start, duration) :: enqueueAll (start + duration)%Q rest
  end.

(** [cancelAll] is to leave the cursor at the current output clock. *)
Definition cursorAtClock (clock : Q) (after : state) : Prop :=
  (nextStart after == clock)%Q.

(** Every invocation received is to be acknowledged exactly once, by
    its identifier. *)
Definition everyCallAcknowledged (fcs : list FunctionCall) (out : list effect) : Prop :=
  acks out = map (fun fc => (fc_id fc, fc_name fc)) fcs.

(** A tick that finds a frame still in flight is to capture nothing. *)
Definition tickSkipped (v : source_file) (st : state) : Prop :=
  framesInFlight (browser st) <> [] ->
  emitted (frameTick v st) = [] /\
  framesInFlight (browser (final (frameTick v st))) = framesInFlight (browser st).

(** A second teardown is to release nothing again. *)
Definition secondTeardownSilent (st : state) : Prop :=
  filter isRelease (emitted (cleanup (final (cleanup st)))) = [].

(** An interruption is to empty the agent's buffer and keep the user's. *)
Definition agentBufferCleared (before after : state) : Prop :=
  transcription after = {| user := user (transcription before); model := "" |}.

End Spec.

(* ------------------------------------------------------------------ *)
(** ** Further observations on runs *)

(** A turn as the history is to hold it: its text is not empty and has
    no white space left at either end. *)
Definition finalized (t : TranscriptionTurn) : Prop :=
  JS.truthy (text t) = true /\ JS.trim (text t) = text t.

(** The cue timers still pending after the calls [out], given those
    pending before: [setTimeout] adds its timer, [clearTimeout] removes
    the one it names. *)
Fixpoint pendingTimeouts (out : list effect) (pending : list nat) : list nat :=
  match out with
  | [] => pending
  | SetTimeout id _ :: rest => pendingTimeouts rest (pending ++ [id])
  | ClearTimeout id :: rest =>
      pendingTimeouts rest (filter (fun t => negb (Nat.eqb t id)) pending)
  | _ :: rest => pendingTimeouts rest pending
  end.

(** The timer [feedbackTimeoutRef] holds, when it holds one. *)
Definition heldTimer (st : state) : list nat :=
  match feedbackTimeoutRef (refs st) with
  | Some (S i) => [S i]
  | _ => []
  end.

(** What goes upstream in the course of [es], read off the events
    alone, [muted] being the position of the mute button at the start:
    a block of microphone samples when the button is off, the JPEG of
    an encode that produced one; a click on the button flips it. *)
Fixpoint upstream (muted : bool) (es : list event) : list Media :=
  match es with
  | [] => []
  | AudioProcess inputData :: rest =>
      (if muted then [] else [PcmMedia (createPcmBlob inputData)]) ++ upstream muted rest
  | ToBlobDone _ (Some base64Data) :: rest => JpegMedia base64Data :: upstream muted rest
  | MuteClick :: rest => upstream (negb muted) rest
  | _ :: rest => upstream muted rest
  end.

(** How often the session timer fired in [es]. *)
Definition ticks (es : list event) : nat :=
  List.length (filter (fun e => match e with Second => true | _ => false end) es).

(* ------------------------------------------------------------------ *)
(** ** Around the session: setup, evaluation, report, statistics

    The other components of the repository, in so far as they compute:
    [components/InterviewSetup.tsx], [services/analysisService.ts],
    [components/AnalysisReport.tsx], [App.tsx], and the helpers of the
    session component that the handlers above do not go through
    ([blobToBase64], and [renderSentences] of [part_001]). *)

(** *** [InterviewSetup.tsx] *)

Module Setup.

(** [Array.prototype.includes] on strings *)
Definition includes (f : string) (l : list string) : bool :=
  existsb (String.eqb f) l.

(** [setFocus (prev => prev.includes (f) ? prev.filter (x => x !== f)
     : [...prev, f])] *)
Definition handleFocusToggle (f : string) (prev : list string) : list string :=
  if includes f prev
  then filter (fun x => negb (String.eqb x f)) prev
  else prev ++ [f].

(** The focus the form starts with. *)
Definition initialFocus : list string := ["Problem Solving"; "Communication"].

(** Clicks on focus buttons, one after the other. *)
Definition clicks (fs : list string) (focus : list string) : list string :=
  fold_left (fun prev f => handleFocusToggle f prev) fs focus.

End Setup.

(** *** [analysisService.ts] and [AnalysisReport.tsx] *)

Module Evaluation.

Definition newline : ascii := ascii_of_nat 10.

(** [Array.prototype.join] *)
Fixpoint join (sep : string) (l : list string) : string :=
  match l with
  | [] => ""
  | x :: rest =>
      match rest with
      | [] => x
      | _ :: _ => x ++ sep ++ join sep rest
      end
  end.

(** [String.prototype.split] on a separator of one character. *)
Fixpoint split (sep : ascii) (s : string) : list string :=
  match s with
  | EmptyString => [EmptyString]
  | String c s' =>
      if Ascii.eqb c sep then EmptyString :: split sep s'
      else
        match split sep s' with
        | [] => [String c EmptyString]
        | piece :: pieces => String c piece :: pieces
        end
  end.

(** [h.role === 'user' ? 'Candidate' : 'Interviewer'] *)
Definition speaker (r : Role) : string :=
  match r with
  | RoleUser => "Candidate"
  | RoleInterviewer => "Interviewer"
  end.

(** One line of the transcript handed to the model and kept in the
    analysis: the speaker, a colon, a space, the text. *)
Definition line (h : TranscriptionTurn) : string :=
  speaker (role h) ++ ": " ++ text h.

(** [history.map (...).join ('\n')] of [generateEvaluation] *)
Definition transcriptOf (history : list TranscriptionTurn) : string :=
  join (String newline EmptyString) (map line history).

(** [s] without the prefix [p], when it starts with it. *)
Fixpoint afterPrefix (p s : string) : option string :=
  match p, s with
  | EmptyString, _ => Some s
  | String a p', String b s' => if Ascii.eqb a b then afterPrefix p' s' else None
  | String _ _, EmptyString => None
  end.

(** [String.prototype.startsWith] *)
Definition startsWith (p s : string) : bool :=
  match afterPrefix p s with Some _ => true | None => false end.

(** [line.replace (/^(Candidate|Interviewer):\s*/, '')] *)
Definition withoutSpeaker (l : string) : string :=
  match afterPrefix "Candidate:" l with
  | Some rest => JS.trimStart rest
  | None =>
      match afterPrefix "Interviewer:" l with
      | Some rest => JS.trimStart rest
      | None => l
      end
  end.

(** What the report shows for a line: on which side (the interviewer's
    or the candidate's) and with which text. *)
Definition bubble (l : string) : bool * string :=
  (startsWith "Interviewer:" l, withoutSpeaker l).

(** [analysis.transcript.split ('\n').map (...)] of the report *)
Definition feed (transcript : string) : list (bool * string) :=
  map bubble (split newline transcript).

(** The bubble a turn of the history should come back as. *)
Definition bubbleOf (h : TranscriptionTurn) : bool * string :=
  (match role h with RoleInterviewer => true | RoleUser => false end, text h).

(** No line break inside. *)
Definition singleLine (s : string) : Prop :=
  ~ In newline (list_ascii_of_string s).

End Evaluation.

(** *** [blobToBase64] *)

Module DataUrl.

Definition comma : ascii := ascii_of_nat 44.

(** [(reader.result as string).split (',')[1]]; [None] is [undefined]. *)
Definition blobToBase64 (result : string) : option string :=
  nth_error (Evaluation.split comma result) 1.

Definition commaFree (s : string) : Prop :=
  ~ In comma (list_ascii_of_string s).

End DataUrl.

(** *** [updateStats] of [App.tsx]

    Moments are milliseconds since the epoch, scores are integers, and
    the date string kept in [lastSessionDate] ([YYYY-MM-DD], the UTC
    day) is represented by the number of that day: writing it is
    [isoDate], reading it back with [new Date (...)] is [dateTime]. *)

Module Stats.

Record UserStats := {
  totalSessions : Z;
  currentStreak : Z;
  lastSessionDate : option Z;
  scoreHistory : list Z;
  averageScore : Z
}.

Definition INITIAL_STATS : UserStats :=
  {| totalSessions := 0; currentStreak := 0; lastSessionDate := None;
     scoreHistory := []; averageScore := 0 |}.

(** [1000 * 60 * 60 * 24] *)
Definition dayMs : Z := (1000 * 60 * 60 * 24)%Z.

(** [now.toISOString ().split ('T')[0]] *)
Definition isoDate (now : Z) : Z := (now / dayMs)%Z.

(** [new Date (lastDate).getTime ()]: midnight UTC of that day. *)
Definition dateTime (day : Z) : Z := (day * dayMs)%Z.

(** [Math.ceil (a / b)] for [b] positive. *)
Definition Math_ceil_div (a b : Z) : Z := (- ((- a) / b))%Z.

(** [Math.round (a / b)] for [b] positive: halves go up. *)
Definition Math_round_div (a b : Z) : Z := ((2 * a + b) / (2 * b))%Z.

(** [newHistory.reduce ((a, b) => a + b, 0)] *)
Definition total (scores : list Z) : Z := fold_left Z.add scores 0%Z.

Definition diffDays (now : Z) (lastDate : Z) : Z :=
  Math_ceil_div (Z.abs (now - dateTime lastDate)) dayMs.

Definition newStreak (now : Z) (oldStats : UserStats) : Z :=
  match lastSessionDate oldStats with
  | None => 1%Z
  | Some lastDate =>
      if (diffDays now lastDate =? 1)%Z then (currentStreak oldStats + 1)%Z
      else if (1 <? diffDays now lastDate)%Z then 1%Z
      else currentStreak oldStats
  end.

(** The updater passed to [setState] by [updateStats]; the result is
    also what is written to local storage. *)
Definition updateStats (now : Z) (newScore : Z) (oldStats : UserStats) : UserStats :=
  let newHistory := scoreHistory oldStats ++ [newScore] in
  {| totalSessions := (totalSessions oldStats + 1)%Z;
     currentStreak := newStreak now oldStats;
     lastSessionDate := Some (isoDate now);
     scoreHistory := newHistory;
     averageScore := Math_round_div (total newHistory) (Z.of_nat (List.length newHistory)) |}.


End Stats.

(** *** [App.tsx]

    The evaluation is awaited inside [handleInterviewComplete]; as for
    the session handlers, the callback is taken to run to its end, and
    what the remote model answers is carried by the event: the parsed
    reply, or nothing when [generateEvaluation] throws. *)

Module App.

Inductive InterviewStatus := IDLE | SETUP | INTERVIEWING | COMPLETED.

Inductive Difficulty := Junior | MidLevel | Senior | Lead.

(** [InterviewSessionConfig] of [types.ts] *)
Record InterviewSessionConfig := {
  role : string;
  company : string;
  difficulty : Difficulty;
  focus : list string
}.

(** The fields the response schema requires. *)
Record Reply := {
  replyScore : Z;
  replyClarity : Z;
  replyConfidence : Z;
  replyCommunication : Z;
  replyTechnicalKnowledge : Z;
  replyStrengths : list string;
  replyWeaknesses : list string;
  replyRecommendations : list string
}.

(** [InterviewAnalysis] of [types.ts] *)
Record InterviewAnalysis := {
  overallScore : Z;
  clarity : Z;
  confidence : Z;
  communication : Z;
  technicalKnowledge : Z;
  strengths : list string;
  weaknesses : list string;
  recommendations : list string;
  transcript : string;
  duration : option string
}.

(** [return { ...data, transcript }] of [generateEvaluation] *)
Definition generateEvaluation (history : list TranscriptionTurn) (data : Reply)
    : InterviewAnalysis :=
  {| overallScore := replyScore data;
     clarity := replyClarity data;
     confidence := replyConfidence data;
     communication := replyCommunication data;
     technicalKnowledge := replyTechnicalKnowledge data;
     strengths := replyStrengths data;
     weaknesses := replyWeaknesses data;
     recommendations := replyRecommendations data;
     transcript := Evaluation.transcriptOf history;
     duration := None |}.

(** [evaluation.duration = duration] *)
Definition withDuration (d : string) (a : InterviewAnalysis) : InterviewAnalysis :=
  {| overallScore := overallScore a;
     clarity := clarity a;
     confidence := confidence a;
     communication := communication a;
     technicalKnowledge := technicalKnowledge a;
     strengths := strengths a;
     weaknesses := weaknesses a;
     recommendations := recommendations a;
     transcript := transcript a;
     duration := Some d |}.

Record AppState := {
  status : InterviewStatus;
  config : option InterviewSessionConfig;
  analysis : option InterviewAnalysis;
  history : list TranscriptionTurn;
  stats : Stats.UserStats;
  loading : bool
}.

(** The state [App] starts with, when local storage holds no statistics. *)
Definition initial : AppState :=
  {| status := IDLE; config := None; analysis := None; history := [];
     stats := Stats.INITIAL_STATS; loading := false |}.


Definition handleStartInterview (cfg : InterviewSessionConfig) (st : AppState)
    : AppState :=
  {| status := INTERVIEWING; config := Some cfg; analysis := analysis st;
     history := history st; stats := stats st; loading := loading st |}.


(** [now] is the moment at which [updateStats] reads the clock. *)
Definition handleInterviewComplete (now : Z) (reply : option Reply)
    (newHistory : list TranscriptionTurn) (elapsed : string) (st : AppState)
    : AppState :=
  match config st with
  | None => st
  | Some _ =>
      match reply with
      | Some data =>
          let evaluation := withDuration elapsed (generateEvaluation newHistory data) in
          {| status := COMPLETED; config := config st;
             analysis := Some evaluation; history := newHistory;
             stats := Stats.updateStats now (overallScore evaluation) (stats st);
             loading := false |}
      | None =>
          {| status := status st; config := config st; analysis := analysis st;
             history := history st; stats := stats st; loading := false |}
      end
  end.





End App.

(** *** [renderSentences] of [part_001] *)

Module Sentences.

(** The end marks of the pattern: [.], [!] and [?]. *)
Definition isEndMark (c : ascii) : bool :=
  let n := nat_of_ascii c in
  (n =? 46)%nat || (n =? 33)%nat || (n =? 63)%nat.

(** The longest prefix whose characters satisfy [p], and the rest. *)
Fixpoint span (p : ascii -> bool) (s : string) : string * string :=
  match s with
  | EmptyString => (EmptyString, EmptyString)
  | String c s' =>
      if p c then let '(a, b) := span p s' in (String c a, b)
      else (EmptyString, s)
  end.

(** [text.match (/[^.!?]+[.!?]*\s*/g)], the matches from left to right.
    Where the pattern does not match (at an end mark) the search moves
    on by one character.  [fuel] bounds the number of steps; the length
    of the text is enough. *)
Fixpoint matches (fuel : nat) (s : string) : list string :=
  match fuel with
  | O => []
  | S fuel' =>
      match s with
      | EmptyString => []
      | String c s' =>
          if isEndMark c then matches fuel' s'
          else
            let '(words, r1) := span (fun x => negb (isEndMark x)) s in
            let '(marks, r2) := span isEndMark r1 in
            let '(spaces, r3) := span JS.isWhiteSpace r2 in
            (words ++ marks ++ spaces)%string :: matches fuel' r3
      end
  end.

(** The pieces [renderSentences] lays out, [None] where it returns
    [null]: [text.match (...) || [text]]. *)
Definition renderSentences (text : string) : option (list string) :=
  match text with
  | EmptyString => None
  | _ =>
      match matches (String.length text) text with
      | [] => Some [text]
      | sentences => Some sentences
      end
  end.

(** The text without its end marks. *)
Fixpoint letters (s : string) : string :=
  match s with
  | EmptyString => EmptyString
  | String c s' => if isEndMark c then letters s' else String c (letters s')
  end.

End Sentences.

(* ------------------------------------------------------------------ *)
(** ** Sequencing *)

Lemma andThen_normal (f g : state -> result) (st : state) :
  threw (f st) = false ->
  final (andThen f g st) = final (g (final (f st))) /\
  emitted (andThen f g st) = emitted (f st) ++ emitted (g (final (f st))) /\
  threw (andThen f g st) = threw (g (final (f st))).
Proof.
  intros H. unfold andThen. rewrite H. cbn. auto.
Qed.

Lemma andThen_thrown (f g : state -> result) (st : state) :
  threw (f st) = true -> andThen f g st = f st.
Proof.
  intros H. unfold andThen. now rewrite H.
Qed.

Lemma run_app (v : source_file) (es1 es2 : list event) (st : state) :
  run v (es1 ++ es2) st =
  (fst (run v es2 (fst (run v es1 st))),
   snd (run v es1 st) ++ snd (run v es2 (fst (run v es1 st)))).
Proof.
  revert st. induction es1 as [|e es1 IH]; intros st; cbn.
  - now destruct (run v es2 st).
  - rewrite IH.
    destruct (run v es1 (final (step v e st))) as [st1 out1]. cbn.
    now rewrite app_assoc.
Qed.

Lemma run_cons (v : source_file) (e : event) (es : list event) (st : state) :
  run v (e :: es) st =
  (fst (run v es (final (step v e st))),
   emitted (step v e st) ++ snd (run v es (final (step v e st)))).
Proof.
  cbn. now destruct (run v es (final (step v e st))).
Qed.

(* ------------------------------------------------------------------ *)
(** ** The duration handed over by [handleFinish] *)

Lemma padStart_zeros (s : string) :
  JS.padStart 2 "0" s = Spec.leftPadZeros 2 s.
Proof.
  unfold JS.padStart, Spec.leftPadZeros.
  destruct s as [|a [|b s]]; reflexivity.
Qed.

(** Below a hundred, the padded numeral is the tens digit and the units
    digit. *)
Lemma padStart_two_digits (k : nat) :
  k < 100 ->
  JS.padStart 2 "0" (JS.toString k) =
  String (Spec.digit (k / 10)) (String (Spec.digit (k mod 10)) EmptyString).
Proof.
  intros Hk.
  assert (Hall : forallb (fun k =>
            String.eqb (JS.padStart 2 "0" (JS.toString k))
              (String (Spec.digit (k / 10))
                 (String (Spec.digit (k mod 10)) EmptyString)))
            (seq 0 100) = true) by (vm_compute; reflexivity).
  rewrite forallb_forall in Hall.
  apply String.eqb_eq, Hall, in_seq. lia.
Qed.

(** For a session shorter than a hundred minutes the duration is five
    characters: two digits of minutes, a colon, two digits of seconds. *)
Lemma formatTime_clockFace (n : nat) :
  n < 100 * 60 -> formatTime n = Spec.clockFace n.
Proof.
  intros Hn. unfold formatTime, Spec.clockFace.
  assert (Hm : n / 60 < 100) by (apply Nat.Div0.div_lt_upper_bound; lia).
  assert (Hs : n mod 60 < 100) by (pose proof (Nat.mod_upper_bound n 60); lia).
  rewrite (padStart_two_digits _ Hm), (padStart_two_digits _ Hs).
  assert (E1 : n / 60 / 10 = n / 600) by (rewrite Nat.Div0.div_div; reflexivity).
  assert (E2 : (n mod 60) mod 10 = n mod 10).
  { rewrite (Nat.div_mod_eq n 60) at 2.
    replace (60 * (n / 60) + n mod 60) with (n mod 60 + (6 * (n / 60)) * 10) by lia.
    now rewrite Nat.Div0.mod_add. }
  rewrite E1, E2. reflexivity.
Qed.

(** C9. [handleFinish] hands over the turn history as it stands and the
    elapsed seconds [n] written as MM:SS: the decimal numeral of
    [n / 60] left-padded with zeros to two digits, a colon, and the
    decimal numeral of [n mod 60] left-padded with zeros to two digits.
    Below a hundred minutes that is five characters, two digits on
    either side of the colon. *)
Theorem handleFinish_history_and_mmss (st : state) :
  handleFinish st = (transcript st, Spec.mmss (secondsElapsed (react st))) /\
  (secondsElapsed (react st) < 100 * 60 ->
   snd (handleFinish st) = Spec.clockFace (secondsElapsed (react st))).
Proof.
  split.
  - unfold handleFinish, formatTime, Spec.mmss, transcript.
    now rewrite !padStart_zeros.
  - intros Hn. cbn [handleFinish snd]. now apply formatTime_clockFace.
Qed.

Example formatTime_754 : formatTime 754 = "12:34".
Proof. reflexivity. Qed.

Example formatTime_5 : formatTime 5 = "00:05".
Proof. reflexivity. Qed.

(* ------------------------------------------------------------------ *)
(** ** The tool-call loop *)

Lemma acks_app (a b : list effect) : acks (a ++ b) = acks a ++ acks b.
Proof.
  induction a as [|e a IH]; cbn; [reflexivity|].
  destruct e; cbn; now rewrite IH.
Qed.

Lemma schedule_app (a b : list effect) : schedule (a ++ b) = schedule a ++ schedule b.
Proof.
  induction a as [|e a IH]; cbn; [reflexivity|].
  destruct e; cbn; now rewrite IH.
Qed.

Lemma stopped_app (a b : list effect) : stopped (a ++ b) = stopped a ++ stopped b.
Proof.
  induction a as [|e a IH]; cbn; [reflexivity|].
  destruct e; cbn; now rewrite IH.
Qed.

Lemma callEffects_schedule (out : list effect) :
  forallb isCallEffect out = true -> schedule out = [] /\ stopped out = [].
Proof.
  induction out as [|e out IH]; cbn; [auto|].
  destruct e; cbn; try discriminate; exact IH.
Qed.

Lemma publishCue_emits (args : option FeedbackArgs) (ms : N) (st : state) :
  forallb isCallEffect (emitted (publishCue args ms st)) = true /\
  acks (emitted (publishCue args ms st)) = [] /\
  threw (publishCue args ms st) = false /\
  playbackView (final (publishCue args ms st)) = playbackView st.
Proof.
  unfold publishCue. cbn.
  destruct (feedbackTimeoutRef (refs st)) as [[|i]|]; cbn; auto.
Qed.

Lemma handleCall_declared (v : source_file) (fc : FunctionCall) (st : state) :
  isDeclared fc = true -> missingArgs fc = false ->
  threw (handleCall v fc st) = false /\
  acks (emitted (handleCall v fc st)) = [ackOf fc].
Proof.
  unfold missingArgs, handleCall, isDeclared. intros Hd Hm. rewrite Hd in *.
  cbn in Hm.
  destruct v.
  - destruct (fc_args fc) as [a|]; [|discriminate].
    destruct (publishCue_emits (Some {| cue := cue a; sentiment := sentiment a |}) 5000%N st)
      as (_ & Ha & Ht & _).
    destruct (andThen_normal (publishCue (Some {| cue := cue a; sentiment := sentiment a |}) 5000%N)
                (respond fc) st Ht) as (_ & He & Ht').
    rewrite He, Ht', acks_app, Ha. cbn. auto.
  - destruct (publishCue_emits (fc_args fc) 4000%N st) as (_ & Ha & Ht & _).
    destruct (andThen_normal (publishCue (fc_args fc) 4000%N) (respond fc) st Ht)
      as (_ & He & Ht').
    rewrite He, Ht', acks_app, Ha. cbn. auto.
Qed.

Lemma handleCall_other (v : source_file) (fc : FunctionCall) (st : state) :
  isDeclared fc = false -> handleCall v fc st = done st.
Proof.
  unfold handleCall, isDeclared. now intros ->.
Qed.

Lemma handleCall_frame (v : source_file) (fc : FunctionCall) (st : state) :
  playbackView (final (handleCall v fc st)) = playbackView st /\
  forallb isCallEffect (emitted (handleCall v fc st)) = true.
Proof.
  unfold handleCall.
  destruct (String.eqb (fc_name fc) "updateVisualFeedback"); [|now cbn].
  destruct v.
  - destruct (fc_args fc) as [a|]; [|now cbn].
    destruct (publishCue_emits (Some {| cue := cue a; sentiment := sentiment a |}) 5000%N st)
      as (Hc & _ & Ht & Hv).
    destruct (andThen_normal (publishCue (Some {| cue := cue a; sentiment := sentiment a |}) 5000%N)
                (respond fc) st Ht) as (Hf & He & _).
    rewrite Hf, He, forallb_app, Hc. cbn. auto.
  - destruct (publishCue_emits (fc_args fc) 4000%N st) as (Hc & _ & Ht & Hv).
    destruct (andThen_normal (publishCue (fc_args fc) 4000%N) (respond fc) st Ht)
      as (Hf & He & _).
    rewrite Hf, He, forallb_app, Hc. cbn. auto.
Qed.

Lemma forEachCall_frame (v : source_file) (fcs : list FunctionCall) (st : state) :
  playbackView (final (forEachCall v fcs st)) = playbackView st /\
  forallb isCallEffect (emitted (forEachCall v fcs st)) = true.
Proof.
  revert st. induction fcs as [|fc fcs IH]; intros st; cbn; [auto|].
  destruct (handleCall_frame v fc st) as [Hv Hc].
  destruct (threw (handleCall v fc st)) eqn:Ht.
  - rewrite andThen_thrown by exact Ht. auto.
  - destruct (andThen_normal (handleCall v fc) (forEachCall v fcs) st Ht) as (Hf & He & _).
    destruct (IH (final (handleCall v fc st))) as [Hv' Hc'].
    rewrite Hf, He, forallb_app, Hc, Hc', Hv', Hv. auto.
Qed.

Lemma forEachCall_acks (v : source_file) (fcs : list FunctionCall) (st : state) :
  existsb missingArgs fcs = false ->
  threw (forEachCall v fcs st) = false /\
  acks (emitted (forEachCall v fcs st)) = map ackOf (filter isDeclared fcs).
Proof.
  revert st. induction fcs as [|fc fcs IH]; intros st; cbn; [auto|].
  intros Hm. apply orb_false_iff in Hm as [Hm Hms].
  destruct (isDeclared fc) eqn:Hd.
  - destruct (handleCall_declared v fc st Hd Hm) as [Ht Ha].
    destruct (andThen_normal (handleCall v fc) (forEachCall v fcs) st Ht) as (_ & He & Ht').
    destruct (IH (final (handleCall v fc st)) Hms) as [Ht2 Ha2].
    rewrite Ht', He, acks_app, Ha, Ha2, Ht2. cbn. auto.
  - unfold andThen. rewrite (handleCall_other v fc st Hd). cbn.
    destruct (IH st Hms) as [Ht2 Ha2]. auto.
Qed.

Lemma forEachCall_Part001 (fcs : list FunctionCall) (st : state) :
  threw (forEachCall Part001 fcs st) = false /\
  acks (emitted (forEachCall Part001 fcs st)) = map ackOf (filter isDeclared fcs).
Proof.
  revert st. induction fcs as [|fc fcs IH]; intros st; cbn; [auto|].
  assert (Hh : threw (handleCall Part001 fc st) = false /\
               acks (emitted (handleCall Part001 fc st)) =
               if isDeclared fc then [ackOf fc] else []).
  { unfold handleCall, isDeclared.
    destruct (String.eqb (fc_name fc) "updateVisualFeedback"); [|now cbn].
    destruct (publishCue_emits (fc_args fc) 4000%N st) as (_ & Ha & Ht & _).
    destruct (andThen_normal (publishCue (fc_args fc) 4000%N) (respond fc) st Ht)
      as (_ & He & Ht').
    rewrite He, Ht', acks_app, Ha. cbn. auto. }
  destruct Hh as [Ht Ha].
  destruct (andThen_normal (handleCall Part001 fc) (forEachCall Part001 fcs) st Ht)
    as (_ & He & Ht').
  destruct (IH (final (handleCall Part001 fc st))) as [Ht2 Ha2].
  rewrite Ht', He, acks_app, Ha, Ha2, Ht2.
  destruct (isDeclared fc); cbn; auto.
Qed.

Lemma forEachCall_threw_SessionTsx (fcs : list FunctionCall) (st : state) :
  threw (forEachCall SessionTsx fcs st) = existsb missingArgs fcs.
Proof.
  revert st. induction fcs as [|fc fcs IH]; intros st; cbn; [reflexivity|].
  destruct (missingArgs fc) eqn:Hm; cbn.
  - assert (Ht : threw (handleCall SessionTsx fc st) = true).
    { unfold missingArgs, isDeclared in Hm. apply andb_true_iff in Hm as [Hd Ha].
      unfold handleCall. rewrite Hd. now destruct (fc_args fc). }
    rewrite andThen_thrown by exact Ht. exact Ht.
  - assert (Ht : threw (handleCall SessionTsx fc st) = false).
    { destruct (isDeclared fc) eqn:Hd.
      - now destruct (handleCall_declared SessionTsx fc st Hd Hm).
      - now rewrite handleCall_other. }
    destruct (andThen_normal (handleCall SessionTsx fc) (forEachCall SessionTsx fcs) st Ht)
      as (_ & _ & Ht').
    rewrite Ht'. apply IH.
Qed.

Lemma toolCallBlock_frame (v : source_file) (msg : LiveServerMessage) (st : state) :
  playbackView (final (toolCallBlock v msg st)) = playbackView st /\
  forallb isCallEffect (emitted (toolCallBlock v msg st)) = true.
Proof.
  unfold toolCallBlock. destruct (toolCall msg) as [fcs|]; [|now cbn].
  apply forEachCall_frame.
Qed.

Lemma toolCallBlock_threw (v : source_file) (msg : LiveServerMessage) (st : state) :
  threw (toolCallBlock v msg st) = callsThrow v msg.
Proof.
  unfold toolCallBlock, callsThrow.
  destruct (toolCall msg) as [fcs|]; [|now destruct v].
  destruct v.
  - apply forEachCall_threw_SessionTsx.
  - now destruct (forEachCall_Part001 fcs st).
Qed.

(* ------------------------------------------------------------------ *)
(** ** The handler, block by block *)

Lemma onmessage_blocks (v : source_file) (clock : Q) (msg : LiveServerMessage)
    (st : state) :
  onmessage v clock msg st =
  match audioContextRef (refs st) with
  | None => done st
  | Some _ => andThen (toolCallBlock v msg) (afterToolCalls v clock msg) st
  end.
Proof. reflexivity. Qed.

Lemma append_empty_r (s : string) : (s ++ "")%string = s.
Proof.
  induction s as [|a s IH]; cbn; [reflexivity|now rewrite IH].
Qed.

Lemma append_assoc (a b c : string) : ((a ++ b) ++ c)%string = (a ++ (b ++ c))%string.
Proof.
  induction a as [|x a IH]; cbn; [reflexivity|now rewrite IH].
Qed.

(** The condition under which a turn boundary touches the history. *)
Ltac flush_cases :=
  repeat match goal with
  | |- context [if JS.truthy ?a || JS.truthy ?b then _ else _] =>
      destruct (JS.truthy a || JS.truthy b)
  end.

(** A message that is not a turn boundary leaves the history alone and
    appends to the buffers. *)
Lemma afterToolCalls_delta (v : source_file) (clock : Q) (msg : LiveServerMessage)
    (st : state) :
  turnComplete msg = false ->
  let st' := final (afterToolCalls v clock msg st) in
  transcript st' = transcript st /\
  user (transcription st') = (user (transcription st) ++ appendedUser msg)%string /\
  (interrupted msg = false ->
   model (transcription st') = (model (transcription st) ++ appendedModel msg)%string) /\
  audioContextRef (refs st') = audioContextRef (refs st).
Proof.
  destruct msg as [tc ot it tcmp ia intr]. cbn. intros ->.
  destruct ot as [o|], it as [i|], ia as [[|d]|], intr, v; cbn;
    rewrite ?append_empty_r; repeat split; intros; try reflexivity; discriminate.
Qed.

(** A turn boundary flushes both buffers, after the deltas the same
    message carries have been appended. *)
Lemma afterToolCalls_boundary (v : source_file) (clock : Q) (msg : LiveServerMessage)
    (st : state) :
  turnComplete msg = true ->
  let st' := final (afterToolCalls v clock msg st) in
  transcript st' =
    transcript st ++
    newTurns (JS.trim (user (transcription st) ++ appendedUser msg))
             (JS.trim (model (transcription st) ++ appendedModel msg)) /\
  transcription st' = {| user := ""; model := "" |} /\
  audioContextRef (refs st') = audioContextRef (refs st).
Proof.
  destruct msg as [tc ot it tcmp ia intr]. cbn. intros ->.
  destruct ot as [o|], it as [i|], ia as [[|d]|], intr, v;
    cbn -[JS.trim JS.truthy newTurns]; rewrite ?append_empty_r;
    match goal with
    | |- context [JS.truthy (JS.trim ?a) || JS.truthy (JS.trim ?b)] =>
        destruct (JS.truthy (JS.trim a)) eqn:Hu;
        destruct (JS.truthy (JS.trim b)) eqn:Hm
    end;
    cbn -[JS.trim JS.truthy newTurns]; unfold newTurns; rewrite ?Hu, ?Hm;
    cbn -[JS.trim JS.truthy]; rewrite ?app_nil_r; auto.
Qed.

Section Live.

Variable v : source_file.
Variable clock : Q.
Variable msg : LiveServerMessage.
Variable st : state.
Hypothesis Hlive : audioContextRef (refs st) <> None.
Hypothesis Hcalls : callsThrow v msg = false.

(** With the audio contexts in place and a tool-call loop that ends
    normally, the handler is the loop followed by the other blocks, and
    the loop leaves alone what those blocks read. *)
Lemma onmessage_live :
  exists st1,
    playbackView st1 = playbackView st /\
    forallb isCallEffect (emitted (toolCallBlock v msg st)) = true /\
    final (onmessage v clock msg st) = final (afterToolCalls v clock msg st1) /\
    emitted (onmessage v clock msg st) =
      emitted (toolCallBlock v msg st) ++ emitted (afterToolCalls v clock msg st1) /\
    threw (onmessage v clock msg st) = threw (afterToolCalls v clock msg st1).
Proof.
  exists (final (toolCallBlock v msg st)).
  destruct (toolCallBlock_frame v msg st) as [Hv Hc].
  rewrite onmessage_blocks.
  destruct (audioContextRef (refs st)) as [c|]; [|contradiction].
  assert (Ht : threw (toolCallBlock v msg st) = false)
    by now rewrite toolCallBlock_threw.
  destruct (andThen_normal (toolCallBlock v msg) (afterToolCalls v clock msg) st Ht)
    as (Hf & He & Ht').
  auto.
Qed.

Lemma onmessage_delta :
  turnComplete msg = false ->
  let st' := final (onmessage v clock msg st) in
  transcript st' = transcript st /\
  user (transcription st') = (user (transcription st) ++ appendedUser msg)%string /\
  (interrupted msg = false ->
   model (transcription st') = (model (transcription st) ++ appendedModel msg)%string) /\
  audioContextRef (refs st') = audioContextRef (refs st).
Proof.
  intros Hb. destruct onmessage_live as (st1 & Hv & _ & Hf & _).
  cbn zeta. rewrite Hf.
  destruct (afterToolCalls_delta v clock msg st1 Hb) as (H1 & H2 & H3 & H4).
  unfold playbackView in Hv. injection Hv as Ea Et Ec En Es Eq.
  unfold transcript, transcription in *.
  rewrite H1, H2, H4, Ec, Et, Ea. repeat split; try reflexivity.
  intros Hi. rewrite (H3 Hi), Et. reflexivity.
Qed.

Lemma onmessage_boundary :
  turnComplete msg = true ->
  let st' := final (onmessage v clock msg st) in
  transcript st' =
    transcript st ++
    newTurns (JS.trim (user (transcription st) ++ appendedUser msg))
             (JS.trim (model (transcription st) ++ appendedModel msg)) /\
  transcription st' = {| user := ""; model := "" |}.
Proof.
  intros Hb. destruct onmessage_live as (st1 & Hv & _ & Hf & _).
  cbn zeta. rewrite Hf.
  destruct (afterToolCalls_boundary v clock msg st1 Hb) as (H1 & H2 & _).
  unfold playbackView in Hv. injection Hv as Ea Et Ec En Es Eq.
  unfold transcript, transcription in *.
  rewrite H1, H2, Ec, Et. auto.
Qed.

End Live.

(* ------------------------------------------------------------------ *)
(** ** Transcript aggregation *)

Lemma concatAll_app (a b : list string) :
  concatAll (a ++ b) = (concatAll a ++ concatAll b)%string.
Proof.
  unfold concatAll. induction a as [|x a IH]; cbn [app fold_right]; [reflexivity|].
  now rewrite IH, append_assoc.
Qed.

Lemma newTurns_length (userTurn modelTurn : string) :
  List.length (newTurns userTurn modelTurn) <= 2.
Proof.
  unfold newTurns. destruct (JS.truthy userTurn), (JS.truthy modelTurn); cbn; lia.
Qed.

(** Messages that are not turn boundaries only grow the buffers. *)
Lemma run_deltas (v : source_file) (ms : list (Q * LiveServerMessage)) (st : state) :
  audioContextRef (refs st) <> None ->
  Forall (fun cm => turnComplete (snd cm) = false /\ callsThrow v (snd cm) = false) ms ->
  let st1 := fst (run v (messages ms) st) in
  transcript st1 = transcript st /\
  user (transcription st1) =
    (user (transcription st) ++ concatAll (map appendedUser (map snd ms)))%string /\
  (Forall (fun cm => interrupted (snd cm) = false) ms ->
   model (transcription st1) =
     (model (transcription st) ++ concatAll (map appendedModel (map snd ms)))%string) /\
  audioContextRef (refs st1) = audioContextRef (refs st).
Proof.
  revert st. induction ms as [|[c m] ms IH]; intros st Hlive Hall.
  - cbn. rewrite !append_empty_r. auto.
  - inversion Hall as [|x l [Hb Hc] Hall']; subst. cbn in Hb, Hc.
    destruct (onmessage_delta v c m st Hlive Hc Hb) as (H1 & H2 & H3 & H4).
    cbn zeta in H1, H2, H3, H4.
    assert (Hlive' : audioContextRef (refs (final (onmessage v c m st))) <> None)
      by now rewrite H4.
    destruct (IH _ Hlive' Hall') as (I1 & I2 & I3 & I4).
    cbn zeta in I1, I2, I3, I4.
    unfold messages in *. cbn [map fst snd]. rewrite run_cons. cbn [fst step].
    rewrite I1, I2, I4, H1, H2, H4. cbn [concatAll fold_right].
    rewrite append_assoc. repeat split; try reflexivity.
    intros Hni. inversion Hni as [|y l' Hi Hni']; subst. cbn in Hi.
    rewrite (I3 Hni'), (H3 Hi), append_assoc. reflexivity.
Qed.

(** In [part_001] an interruption that is reached empties the model
    side of the buffer. *)
Lemma interruption_reached_Part001 (clock : Q) (msg : LiveServerMessage) (st : state) :
  audioContextRef (refs st) <> None ->
  interrupted msg = true ->
  inlineAudio msg <> Some Undecodable ->
  model (transcription (final (onmessage Part001 clock msg st))) = "".
Proof.
  intros Hlive Hi Ha.
  destruct (onmessage_live Part001 clock msg st Hlive eq_refl) as (st1 & _ & _ & Hf & _).
  rewrite Hf. clear Hf.
  destruct msg as [tc ot it tcmp ia intr]. cbn in Hi, Ha. subst intr.
  destruct ot as [o|], it as [i|], tcmp, ia as [[|d]|]; cbn; flush_cases; cbn;
    try reflexivity; now contradiction Ha.
Qed.

Lemma messages_app (a b : list (Q * LiveServerMessage)) :
  messages (a ++ b) = messages a ++ messages b.
Proof. apply map_app. Qed.

Lemma concatAll_snoc (l : list string) (x : string) :
  concatAll (l ++ [x]) = (concatAll l ++ x)%string.
Proof.
  rewrite concatAll_app. cbn. now rewrite append_empty_r.
Qed.

(** C2, as the code has it.  Let messages that are not turn boundaries
    be handled (each with a tool-call loop that ends normally), then a
    turn boundary [b].  The history grows by [newTurns userTurn
    modelTurn]: the user's entry, then the agent's, each only when its
    trimmed text is not empty, so by at most two entries.  [userTurn]
    is the trimmed concatenation, in arrival order, of what was in the
    user's buffer and of every user delta appended since: interruptions
    do not empty that buffer, and a user delta that arrives together
    with an agent delta is not appended.  [modelTurn] is the trimmed
    model buffer; when no interruption came in between it is the
    trimmed concatenation of what was in the buffer and of every agent
    delta since, and in [part_001], after an interruption that was
    reached, of the agent deltas since the last such interruption.
    Afterwards both buffers are empty. *)
Theorem turn_boundary_flushes_buffers (v : source_file) (st : state)
    (ms : list (Q * LiveServerMessage)) (clock : Q) (b : LiveServerMessage) :
  audioContextRef (refs st) <> None ->
  Forall (fun cm => turnComplete (snd cm) = false /\ callsThrow v (snd cm) = false) ms ->
  turnComplete b = true ->
  callsThrow v b = false ->
  let st1 := fst (run v (messages ms) st) in
  let st2 := final (onmessage v clock b st1) in
  let heard := map snd ms ++ [b] in
  let userTurn :=
    JS.trim (user (transcription st) ++ concatAll (map appendedUser heard)) in
  let modelTurn := JS.trim (model (transcription st1) ++ appendedModel b) in
  transcript st2 = transcript st ++ newTurns userTurn modelTurn /\
  List.length (newTurns userTurn modelTurn) <= 2 /\
  (Forall (fun cm => interrupted (snd cm) = false) ms ->
   modelTurn =
     JS.trim (model (transcription st) ++ concatAll (map appendedModel heard))) /\
  (v = Part001 ->
   forall ms1 ci ms2,
     ms = ms1 ++ ci :: ms2 ->
     interrupted (snd ci) = true ->
     inlineAudio (snd ci) <> Some Undecodable ->
     Forall (fun cm => interrupted (snd cm) = false) ms2 ->
     modelTurn = JS.trim (concatAll (map appendedModel (map snd ms2 ++ [b])))) /\
  transcription st2 = {| user := ""; model := "" |}.
Proof.
  intros Hlive Hall Hb Hc.
  destruct (run_deltas v ms st Hlive Hall) as (R1 & R2 & R3 & R4).
  cbn zeta in R1, R2, R3, R4. cbn zeta.
  assert (Hlive1 : audioContextRef (refs (fst (run v (messages ms) st))) <> None)
    by now rewrite R4.
  destruct (onmessage_boundary v clock b _ Hlive1 Hc Hb) as [B1 B2].
  cbn zeta in B1, B2.
  assert (Hsnoc : forall f : LiveServerMessage -> string,
             concatAll (map f (map snd ms ++ [b])) =
             (concatAll (map f (map snd ms)) ++ f b)%string).
  { intros f. rewrite map_app. cbn [map]. apply concatAll_snoc. }
  rewrite B1, B2, R1, R2, !Hsnoc, append_assoc.
  repeat split.
  - apply newTurns_length.
  - intros Hni. now rewrite (R3 Hni), append_assoc.
  - intros -> ms1 ci ms2 -> Hi Ha Hni.
    apply Forall_app in Hall as [Hall1 Hall2].
    inversion Hall2 as [|x l [Hcb Hcc] Hall3]; subst.
    rewrite messages_app, run_app. cbn [fst].
    destruct (run_deltas Part001 ms1 st Hlive Hall1) as (_ & _ & _ & A4).
    cbn zeta in A4.
    set (sA := fst (run Part001 (messages ms1) st)) in *.
    assert (HliveA : audioContextRef (refs sA) <> None) by now rewrite A4.
    unfold messages at 1. cbn [map]. fold (messages ms2). rewrite run_cons. cbn [fst step].
    set (sB := final (onmessage Part001 (fst ci) (snd ci) sA)).
    assert (HliveB : audioContextRef (refs sB) <> None).
    { destruct (onmessage_delta Part001 (fst ci) (snd ci) sA HliveA Hcc Hcb)
        as (_ & _ & _ & E). cbn zeta in E. subst sB. now rewrite E. }
    destruct (run_deltas Part001 ms2 sB HliveB Hall3) as (_ & _ & C3 & _).
    cbn zeta in C3. rewrite (C3 Hni).
    subst sB. rewrite (interruption_reached_Part001 _ _ _ HliveA Hi Ha).
    rewrite map_app. cbn [map]. now rewrite concatAll_snoc.
Qed.

Lemma turn_boundary_flushes_buffers_witness :
  transcript
    (final (onmessage SessionTsx 0%Q turnBoundary
       (fst (run SessionTsx
               (messages [(0%Q, userDelta "Hello"); (0%Q, userDelta " world")])
               opened)))) =
  [{| role := RoleUser; text := "Hello world" |}].
Proof.
  assert (Hlive : audioContextRef (refs opened) <> None) by discriminate.
  assert (Hall : Forall (fun cm : Q * LiveServerMessage =>
             turnComplete (snd cm) = false /\ callsThrow SessionTsx (snd cm) = false)
             [(0%Q, userDelta "Hello"); (0%Q, userDelta " world")])
    by (repeat constructor).
  exact (proj1 (turn_boundary_flushes_buffers SessionTsx opened
                  [(0%Q, userDelta "Hello"); (0%Q, userDelta " world")]
                  0%Q turnBoundary Hlive Hall eq_refl eq_refl)).
Defined.

(** The claim as it is worded fails: the user's buffer survives an
    interruption, so the user's entry holds more than the deltas since
    the last interruption. *)
Lemma turn_boundary_counterexample :
  let before := [userDelta "I was"; interruption; userDelta " saying"] in
  let arrivals := map (pair 0%Q) (before ++ [turnBoundary]) in
  transcript (fst (run SessionTsx (messages arrivals) opened)) <>
    transcript opened ++ Spec.boundaryTurns before /\
  transcript (fst (run Part001 (messages arrivals) opened)) <>
    transcript opened ++ Spec.boundaryTurns before.
Proof.
  split; vm_compute; discriminate.
Qed.

(** C10. When one message carries both an agent-speech and a
    user-speech transcription, the transcription block appends the
    agent's delta only, and the whole handler does exactly what it does
    on the same message without the user's delta; where the message is
    neither a turn boundary nor an interruption, the buffers afterwards
    are the old user buffer and the old model buffer followed by the
    agent's delta. *)
Theorem both_deltas_user_delta_dropped (v : source_file) (clock : Q)
    (msg : LiveServerMessage) (st : state) (o i : string) :
  outputTranscription msg = Some o ->
  inputTranscription msg = Some i ->
  transcriptionBlock msg st = done (appendModel o st) /\
  onmessage v clock msg st = onmessage v clock (withoutInput msg) st /\
  (audioContextRef (refs st) <> None -> callsThrow v msg = false ->
   turnComplete msg = false -> interrupted msg = false ->
   transcription (final (onmessage v clock msg st)) =
     {| user := user (transcription st);
        model := model (transcription st) ++ o |}).
Proof.
  intros Ho Hi. split; [|split].
  - unfold transcriptionBlock. now rewrite Ho.
  - unfold onmessage, toolCallBlock, transcriptionBlock, turnCompleteBlock,
      audioBlock, interruptedBlock, withoutInput. cbn. now rewrite Ho.
  - intros Hlive Hc Hb Hn.
    destruct (onmessage_delta v clock msg st Hlive Hc Hb) as (_ & Hu & Hm & _).
    cbn zeta in Hu, Hm. specialize (Hm Hn).
    unfold appendedUser, appendedModel in *. rewrite Ho in *.
    rewrite append_empty_r in Hu.
    destruct (transcription (final (onmessage v clock msg st))) as [u m].
    cbn in *. now subst.
Qed.

Lemma both_deltas_user_delta_dropped_witness :
  transcription
    (final (onmessage Part001 0%Q
       {| toolCall := None; outputTranscription := Some "Tell me";
          inputTranscription := Some "Well"; turnComplete := false;
          inlineAudio := None; interrupted := false |} opened)) =
  {| user := ""; model := "Tell me" |}.
Proof.
  refine (proj2 (proj2 (both_deltas_user_delta_dropped Part001 0%Q
            {| toolCall := None; outputTranscription := Some "Tell me";
               inputTranscription := Some "Well"; turnComplete := false;
               inlineAudio := None; interrupted := false |}
            opened "Tell me" "Well" eq_refl eq_refl)) _ eq_refl eq_refl eq_refl).
  discriminate.
Defined.

(* ------------------------------------------------------------------ *)
(** ** Interruption and the buffers *)

(** In [part_001] an interruption empties the agent's buffer and keeps
    the user's. *)
Lemma interruption_clears_agent_buffer_Part001 (clock : Q) (st : state) :
  audioContextRef (refs st) <> None ->
  Spec.agentBufferCleared st (final (onmessage Part001 clock interruption st)).
Proof.
  intros Hlive. unfold Spec.agentBufferCleared, onmessage.
  destruct (audioContextRef (refs st)); [reflexivity|contradiction].
Qed.

(** C3, in [InterviewSession.tsx].  There the interruption block stops
    the playback units and resets the cursor, and that is all: both
    buffers are as they were, so an agent buffer that was not empty is
    not emptied. *)
Theorem interruption_keeps_agent_buffer_SessionTsx (clock : Q) (st : state) :
  audioContextRef (refs st) <> None ->
  model (transcription st) <> "" ->
  transcription (final (onmessage SessionTsx clock interruption st)) = transcription st /\
  ~ Spec.agentBufferCleared st (final (onmessage SessionTsx clock interruption st)).
Proof.
  intros Hlive Hm.
  assert (E : transcription (final (onmessage SessionTsx clock interruption st)) =
              transcription st).
  { unfold onmessage. destruct (audioContextRef (refs st)); [reflexivity|contradiction]. }
  split; [exact E|].
  unfold Spec.agentBufferCleared. rewrite E. intros H.
  apply Hm. rewrite H. reflexivity.
Qed.

(** What this does to the history: the agent is interrupted after
    "Tell me about", then says "Sorry, go on".  [part_001] records the
    second utterance alone, [InterviewSession.tsx] both run together. *)
Example interrupted_agent_turn :
  let arrivals :=
    messages [(0%Q, modelDelta "Tell me about"); (1%Q, interruption);
              (2%Q, modelDelta "Sorry, go on"); (3%Q, turnBoundary)] in
  transcript (fst (run Part001 arrivals opened)) =
    [{| role := RoleInterviewer; text := "Sorry, go on" |}] /\
  transcript (fst (run SessionTsx arrivals opened)) =
    [{| role := RoleInterviewer; text := "Tell me aboutSorry, go on" |}].
Proof.
  split; reflexivity.
Qed.

Lemma interruption_keeps_agent_buffer_SessionTsx_witness :
  transcription (final (onmessage SessionTsx 0%Q interruption midExchange)) =
    {| user := "I think"; model := "Tell me about" |} /\
  ~ Spec.agentBufferCleared midExchange
      (final (onmessage SessionTsx 0%Q interruption midExchange)).
Proof.
  apply (interruption_keeps_agent_buffer_SessionTsx 0%Q midExchange); discriminate.
Defined.

(* ------------------------------------------------------------------ *)
(** ** Acknowledging tool calls *)

Lemma playbackEffects_stop (l : list nat) :
  forallb isPlaybackEffect (map SourceStop l) = true.
Proof.
  induction l as [|x l IH]; cbn; auto.
Qed.

Lemma playbackEffects_acks (out : list effect) :
  forallb isPlaybackEffect out = true -> acks out = [] /\ sentMedia out = [].
Proof.
  induction out as [|e out IH]; cbn; [auto|].
  destruct e; cbn; try discriminate; exact IH.
Qed.

Lemma afterToolCalls_effects (v : source_file) (clock : Q) (msg : LiveServerMessage)
    (st : state) :
  forallb isPlaybackEffect (emitted (afterToolCalls v clock msg st)) = true.
Proof.
  destruct msg as [tc ot it tcmp ia intr].
  destruct ot as [o|], it as [i|], tcmp, ia as [[|d]|], intr, v; cbn; flush_cases; cbn;
    rewrite ?app_nil_r, ?playbackEffects_stop; reflexivity.
Qed.

(** C5, as the code has it.  While the audio contexts exist, a message
    whose tool-call loop ends normally is answered by one
    acknowledgement for each call of [updateVisualFeedback], in the
    order of the calls and with the identifier and name of each, whatever
    fields its arguments have; calls under any other name are not
    acknowledged.  What else the message carries changes nothing. *)
Theorem declared_calls_acknowledged (v : source_file) (clock : Q)
    (msg : LiveServerMessage) (st : state) (fcs : list FunctionCall) :
  audioContextRef (refs st) <> None ->
  toolCall msg = Some fcs ->
  callsThrow v msg = false ->
  acks (emitted (onmessage v clock msg st)) = map ackOf (filter isDeclared fcs).
Proof.
  intros Hlive Htc Hc.
  destruct (onmessage_live v clock msg st Hlive Hc) as (st1 & _ & _ & _ & He & _).
  rewrite He, acks_app.
  destruct (playbackEffects_acks _ (afterToolCalls_effects v clock msg st1)) as [-> _].
  rewrite app_nil_r.
  unfold toolCallBlock. rewrite Htc.
  destruct v.
  - unfold callsThrow in Hc. rewrite Htc in Hc.
    now destruct (forEachCall_acks SessionTsx fcs st Hc).
  - now destruct (forEachCall_Part001 fcs st).
Qed.

Lemma declared_calls_acknowledged_witness :
  acks (emitted (onmessage SessionTsx 0%Q
                   (toolMessage [cueCall; strayCall; bareCall]) opened)) =
  [("call-8", "updateVisualFeedback"); ("call-9", "updateVisualFeedback")].
Proof.
  apply (declared_calls_acknowledged SessionTsx 0%Q
           (toolMessage [cueCall; strayCall; bareCall]) opened
           [cueCall; strayCall; bareCall]).
  - discriminate.
  - reflexivity.
  - reflexivity.
Defined.

(** The claim as it is worded fails: a call under another name gets no
    acknowledgement, in either variant. *)
Lemma every_call_acknowledged_counterexample :
  ~ Spec.everyCallAcknowledged [strayCall]
      (emitted (onmessage SessionTsx 0%Q (toolMessage [strayCall]) opened)) /\
  ~ Spec.everyCallAcknowledged [strayCall]
      (emitted (onmessage Part001 0%Q (toolMessage [strayCall]) opened)).
Proof.
  split; unfold Spec.everyCallAcknowledged; vm_compute; discriminate.
Qed.

(** Once teardown has dropped the audio contexts the handler returns at
    once: nothing is acknowledged, scheduled or appended. *)
Lemma onmessage_without_contexts (v : source_file) (clock : Q)
    (msg : LiveServerMessage) (st : state) :
  audioContextRef (refs st) = None -> onmessage v clock msg st = done st.
Proof.
  intros H. unfold onmessage. now rewrite H.
Qed.

(** In [InterviewSession.tsx] a call of the declared tool without
    arguments ends the handler: neither it nor the calls after it are
    acknowledged. *)
Example missing_arguments_SessionTsx :
  let noArgs := {| fc_id := "call-1"; fc_name := "updateVisualFeedback";
                   fc_args := None |} in
  acks (emitted (onmessage SessionTsx 0%Q (toolMessage [noArgs; cueCall]) opened)) = [] /\
  acks (emitted (onmessage Part001 0%Q (toolMessage [noArgs; cueCall]) opened)) =
    [("call-1", "updateVisualFeedback"); ("call-8", "updateVisualFeedback")].
Proof.
  split; reflexivity.
Qed.

(* ------------------------------------------------------------------ *)
(** ** Playback scheduling *)

Lemma Math_max_le_l (x y : Q) : (x <= JS.Math_max x y)%Q.
Proof.
  unfold JS.Math_max. destruct (Qle_bool x y) eqn:E.
  - now apply Qle_bool_iff.
  - apply Qle_refl.
Qed.

Lemma Math_max_le_r (x y : Q) : (y <= JS.Math_max x y)%Q.
Proof.
  unfold JS.Math_max. destruct (Qle_bool x y) eqn:E.
  - apply Qle_refl.
  - destruct (Qlt_le_dec x y) as [H|H]; [|exact H].
    apply Qlt_le_weak, Qle_bool_iff in H. congruence.
Qed.

(** A chunk that arrives before the cursor starts at the cursor. *)
Lemma Math_max_early (x y : Q) : (y <= x)%Q -> (JS.Math_max x y == x)%Q.
Proof.
  intros H. unfold JS.Math_max. destruct (Qle_bool x y) eqn:E.
  - apply Qle_bool_iff in E. now apply Qle_antisym.
  - reflexivity.
Qed.

(** A chunk that arrives at or after a cursor at zero starts at once. *)
Lemma Math_max_zero (y : Q) : (0 <= y)%Q -> JS.Math_max 0%Q y = y.
Proof.
  intros H. unfold JS.Math_max. apply Qle_bool_iff in H. now rewrite H.
Qed.

Lemma schedule_stop (l : list nat) : schedule (map SourceStop l) = [].
Proof. induction l; cbn; auto. Qed.

Lemma stopped_stop (l : list nat) : stopped (map SourceStop l) = l.
Proof. induction l as [|x l IH]; cbn; [reflexivity|now rewrite IH]. Qed.

(** What the blocks past the tool-call loop do to the schedule and to
    the cursor, when the message is not an interruption. *)
Lemma afterToolCalls_schedule (v : source_file) (clock : Q) (msg : LiveServerMessage)
    (st : state) :
  interrupted msg = false ->
  let r := afterToolCalls v clock msg st in
  audioContextRef (refs (final r)) = audioContextRef (refs st) /\
  match inlineAudio msg with
  | Some (Decodes d) =>
      schedule (emitted r) = [(JS.Math_max (nextStart st) clock, d)] /\
      nextStart (final r) = (JS.Math_max (nextStart st) clock + d)%Q /\
      threw r = false
  | Some Undecodable =>
      schedule (emitted r) = [] /\
      nextStart (final r) = JS.Math_max (nextStart st) clock
  | None =>
      schedule (emitted r) = [] /\ nextStart (final r) = nextStart st /\
      threw r = false
  end.
Proof.
  destruct msg as [tc ot it tcmp ia intr]. cbn. intros ->.
  destruct ot as [o|], it as [i|], tcmp, ia as [[|d]|], v; cbn; flush_cases; cbn; auto.
Qed.

Lemma onmessage_schedule (v : source_file) (clock : Q) (msg : LiveServerMessage)
    (st : state) :
  interrupted msg = false ->
  let r := onmessage v clock msg st in
  audioContextRef (refs (final r)) = audioContextRef (refs st) /\
  ((schedule (emitted r) = [] /\
    (nextStart (final r) = nextStart st \/
     nextStart (final r) = JS.Math_max (nextStart st) clock)) \/
   (exists d, inlineAudio msg = Some (Decodes d) /\
      schedule (emitted r) = [(JS.Math_max (nextStart st) clock, d)] /\
      nextStart (final r) = (JS.Math_max (nextStart st) clock + d)%Q)).
Proof.
  intros Hi. cbn zeta.
  destruct (audioContextRef (refs st)) as [c|] eqn:Hctx.
  2:{ rewrite onmessage_without_contexts by exact Hctx. cbn. rewrite Hctx. auto. }
  destruct (toolCallBlock_frame v msg st) as [Hv Hc].
  apply callEffects_schedule in Hc as [Hs _].
  unfold playbackView in Hv. injection Hv as Ea Et Ec En Es Eq.
  destruct (callsThrow v msg) eqn:Hthrow.
  - rewrite onmessage_blocks, Hctx, andThen_thrown
      by now rewrite toolCallBlock_threw.
    rewrite Ea, Hs. unfold nextStart. rewrite En, Hctx. auto.
  - assert (Hlive : audioContextRef (refs st) <> None) by now rewrite Hctx.
    destruct (onmessage_live v clock msg st Hlive Hthrow) as (st1 & Hv1 & Hc1 & Hf & He & _).
    apply callEffects_schedule in Hc1 as [Hs1 _].
    unfold playbackView in Hv1. injection Hv1 as Fa Ft Fc Fn Fs Fq.
    destruct (afterToolCalls_schedule v clock msg st1 Hi) as [Ha Hm].
    cbn zeta in Ha, Hm.
    rewrite Hf, He, schedule_app, Hs1, Ha, Fa, <- Hctx. cbn [app].
    unfold nextStart in *. rewrite Fn in Hm.
    split; [reflexivity|].
    destruct (inlineAudio msg) as [[|d]|].
    + left. destruct Hm as [-> ->]. auto.
    + right. exists d. destruct Hm as (-> & -> & _). auto.
    + left. destruct Hm as (-> & -> & _). auto.
Qed.

(** The callbacks that are not the inbound handler leave playback alone. *)
Lemma step_other (v : source_file) (e : event) (st : state) :
  match e with Message _ _ | Cleanup => False | _ => True end ->
  schedule (emitted (step v e st)) = [] /\
  stopped (emitted (step v e st)) = [] /\
  nextStart (final (step v e st)) = nextStart st /\
  audioContextRef (refs (final (step v e st))) = audioContextRef (refs st).
Proof.
  destruct e; cbn; try contradiction; intros _.
  - unfold onaudioprocess. destruct (isMutedRef (refs st)); cbn; auto.
  - unfold frameTick.
    destruct (videoRef (refs st)) as [video|]; [|cbn; auto].
    destruct (canvasRef (refs st)) as [canvas|]; [|cbn; auto].
    destruct (sessionRef (refs st)); [|cbn; auto].
    destruct (frameGuard v video canvas); cbn; auto.
  - unfold toBlobCallback. destruct blob; cbn; auto.
  - auto.
  - auto.
  - auto.
  - auto.
Qed.

Lemma backToBack_later (c c' : Q) (units : list (Q * Q)) :
  (c' <= c)%Q -> backToBack c units -> backToBack c' units.
Proof.
  destruct units as [|[s d] rest]; cbn; [auto|].
  intros H [H1 H2]. split; [lra|exact H2].
Qed.

(** One event that does not cancel: either nothing is scheduled and the
    cursor does not move back, or one unit is scheduled no earlier than
    the cursor and the cursor moves to its end. *)
Lemma step_schedule (v : source_file) (e : event) (st : state) :
  cancels e = false -> durationOk e ->
  let r := step v e st in
  (schedule (emitted r) = [] /\ (nextStart st <= nextStart (final r))%Q) \/
  (exists s d, schedule (emitted r) = [(s, d)] /\
     (nextStart st <= s)%Q /\ (0 <= d)%Q /\ nextStart (final r) = (s + d)%Q).
Proof.
  intros Hc Hd. cbn zeta.
  destruct e as [clock msg| | | | | | | |];
    try (match goal with
         | |- context [step v ?e st] =>
             left; destruct (step_other v e st I) as (-> & _ & -> & _);
             split; [reflexivity|apply Qle_refl]
         end).
  - cbn in Hc, Hd. cbn [step].
    destruct (onmessage_schedule v clock msg st Hc) as [_ [[Hs Hn]|(d & Ha & Hs & Hn)]].
    + left. split; [exact Hs|].
      destruct Hn as [-> | ->]; [apply Qle_refl|apply Math_max_le_l].
    + right. exists (JS.Math_max (nextStart st) clock), d.
      rewrite Ha in Hd. repeat split; auto. apply Math_max_le_l.
  - discriminate.
Qed.

Lemma run_backToBack (v : source_file) (es : list event) (st : state) :
  Forall (fun e => cancels e = false) es ->
  Forall durationOk es ->
  backToBack (nextStart st) (schedule (snd (run v es st))) /\
  nonDecreasing (map fst (schedule (snd (run v es st)))).
Proof.
  revert st. induction es as [|e es IH]; intros st Hc Hd; [cbn; auto|].
  inversion Hc as [|x l Hc1 Hc2]; subst. inversion Hd as [|y l' Hd1 Hd2]; subst.
  rewrite run_cons. cbn [snd]. rewrite schedule_app.
  destruct (IH (final (step v e st)) Hc2 Hd2) as [IB IN].
  destruct (step_schedule v e st Hc1 Hd1) as [[Hs Hn]|(s & d & Hs & Hn & Hpos & Hend)];
    rewrite Hs; cbn [app].
  - split; [|exact IN]. now apply (backToBack_later (nextStart (final (step v e st)))).
  - rewrite Hend in IB. split; [cbn; auto|].
    cbn [map fst].
    destruct (schedule (snd (run v es (final (step v e st))))) as [|[s2 d2] rest];
      [exact I|].
    cbn in IB, IN |- *. destruct IB as [IB _]. split; [lra|exact IN].
Qed.

(** One event of a run that plays on: the units it schedules and the
    cursor it leaves are those of [Spec.enqueueAll]. *)
Lemma step_enqueue (v : source_file) (e : event) (st : state) :
  audioContextRef (refs st) <> None -> playsOn v e ->
  audioContextRef (refs (final (step v e st))) <> None /\
  forall later,
    schedule (emitted (step v e st)) ++
      Spec.enqueueAll (nextStart (final (step v e st))) later =
    Spec.enqueueAll (nextStart st) (enqueued [e] ++ later).
Proof.
  intros Hlive Hp.
  destruct e as [clock msg| | | | | | | |];
    try (match goal with
         | |- context [step v ?e st] =>
             destruct (step_other v e st I) as (-> & _ & -> & ->); now split
         end).
  - destruct Hp as (Hi & Hc & Ha). cbn [step].
    destruct (onmessage_live v clock msg st Hlive Hc) as (st1 & Hv1 & Hc1 & Hf & He & _).
    apply callEffects_schedule in Hc1 as [Hs1 _].
    unfold playbackView in Hv1. injection Hv1 as Fa Ft Fc Fn Fs Fq.
    destruct (afterToolCalls_schedule v clock msg st1 Hi) as [Hctx Hm].
    cbn zeta in Hctx, Hm.
    rewrite Hf, He, schedule_app, Hs1, Hctx, Fa. cbn [app]. split; [exact Hlive|].
    unfold nextStart in *. rewrite Fn in Hm. intros later. unfold enqueued. cbn.
    destruct (inlineAudio msg) as [[|d]|].
    + now contradiction Ha.
    + destruct Hm as (-> & -> & _). reflexivity.
    + destruct Hm as (-> & -> & _). reflexivity.
  - contradiction.
Qed.

Lemma enqueued_cons (e : event) (es : list event) :
  enqueued (e :: es) = enqueued [e] ++ enqueued es.
Proof.
  unfold enqueued. cbn [flat_map]. now rewrite app_nil_r.
Qed.

Lemma run_enqueue (v : source_file) (es : list event) (st : state) :
  audioContextRef (refs st) <> None ->
  Forall (playsOn v) es ->
  schedule (snd (run v es st)) = Spec.enqueueAll (nextStart st) (enqueued es).
Proof.
  revert st. induction es as [|e es IH]; intros st Hlive Hall; [reflexivity|].
  inversion Hall as [|x l Hp Hall']; subst.
  destruct (step_enqueue v e st Hlive Hp) as [Hlive' Hstep].
  rewrite run_cons. cbn [snd]. rewrite schedule_app, (IH _ Hlive' Hall').
  rewrite Hstep. now rewrite <- enqueued_cons.
Qed.

(** C1.  In a run in which playback is not cancelled (no interruption,
    no teardown) and every decoded buffer has a duration that is not
    negative, whatever the clock readings at which the chunks arrive:
    the units handed to the output context are back to back from the
    cursor on (each starts no earlier than the end of the one before)
    and their start times never decrease.  Where moreover the audio
    contexts exist and no handler throws, the schedule is exactly that
    of [enqueue] applied chunk after chunk: start at
    [max (nextAvailableTime, currentOutputClock)], then advance
    [nextAvailableTime] by the duration; and a chunk that arrives no
    later than the cursor starts at the cursor, without a gap. *)
Theorem playback_is_back_to_back (v : source_file) (es : list event) (st : state) :
  Forall (fun e => cancels e = false) es ->
  Forall durationOk es ->
  let units := schedule (snd (run v es st)) in
  backToBack (nextStart st) units /\
  nonDecreasing (map fst units) /\
  (audioContextRef (refs st) <> None -> Forall (playsOn v) es ->
   units = Spec.enqueueAll (nextStart st) (enqueued es)) /\
  (forall cursor clock, (clock <= cursor)%Q -> (JS.Math_max cursor clock == cursor)%Q).
Proof.
  intros Hc Hd. cbn zeta.
  destruct (run_backToBack v es st Hc Hd) as [Hb Hn].
  repeat split; auto.
  - intros Hlive Hp. now apply run_enqueue.
  - intros cursor clock. apply Math_max_early.
Qed.

Lemma playback_is_back_to_back_witness :
  let units := schedule (snd (run SessionTsx threeChunks opened)) in
  backToBack (nextStart opened) units /\
  nonDecreasing (map fst units) /\
  units = Spec.enqueueAll (nextStart opened) (enqueued threeChunks).
Proof.
  assert (Hc : Forall (fun e => cancels e = false) threeChunks)
    by (repeat constructor).
  assert (Hd : Forall durationOk threeChunks)
    by (repeat constructor; cbn; discriminate).
  assert (Hp : Forall (playsOn SessionTsx) threeChunks)
    by (repeat constructor; cbn; discriminate).
  destruct (playback_is_back_to_back SessionTsx threeChunks opened Hc Hd)
    as (Hb & Hn & He & _).
  split; [exact Hb|split; [exact Hn|]].
  apply He; [discriminate|exact Hp].
Defined.

(** The three chunks start at 0 s, 0.5 s and 1.6 s. *)
Example threeChunks_starts :
  Forall2 Qeq (map fst (schedule (snd (run SessionTsx threeChunks opened))))
              [0%Q; (1#2)%Q; (8#5)%Q].
Proof.
  cbn. repeat constructor; reflexivity.
Qed.

(* ------------------------------------------------------------------ *)
(** ** Interruption and playback *)

Lemma setAdd_In (x y : nat) (l : list nat) :
  In y (setAdd x l) <-> y = x \/ In y l.
Proof.
  unfold setAdd. destruct (existsb (Nat.eqb x) l) eqn:E.
  - split; [auto|]. intros [->|H]; [|exact H].
    apply existsb_exists in E as (z & Hz & Ez).
    apply Nat.eqb_eq in Ez. now subst.
  - rewrite in_app_iff. cbn. intuition.
Qed.

Lemma afterToolCalls_units (v : source_file) (clock : Q) (msg : LiveServerMessage)
    (st : state) :
  schedule (emitted (afterToolCalls v clock msg st)) =
  match inlineAudio msg with
  | Some (Decodes d) => [(JS.Math_max (nextStart st) clock, d)]
  | _ => []
  end.
Proof.
  destruct msg as [tc ot it tcmp ia intr].
  destruct ot as [o|], it as [i|], tcmp, ia as [[|d]|], intr, v; cbn; flush_cases; cbn;
    rewrite ?app_nil_r, ?schedule_stop; reflexivity.
Qed.

(** A message without audio leaves the cursor where it is, or at zero. *)
Lemma afterToolCalls_no_audio (v : source_file) (clock : Q) (msg : LiveServerMessage)
    (st : state) :
  inlineAudio msg = None ->
  let r := afterToolCalls v clock msg st in
  audioContextRef (refs (final r)) = audioContextRef (refs st) /\
  (nextStart (final r) = nextStart st \/ nextStart (final r) = 0%Q).
Proof.
  destruct msg as [tc ot it tcmp ia intr]. cbn. intros ->.
  destruct ot as [o|], it as [i|], tcmp, intr, v; cbn; flush_cases; cbn; auto.
Qed.

(** An interruption that is reached stops the live set as it stands
    then, which holds the units that were live before the message and
    the unit the message itself started. *)
Lemma afterToolCalls_interrupted (v : source_file) (clock : Q) (msg : LiveServerMessage)
    (st : state) :
  interrupted msg = true ->
  let r := afterToolCalls v clock msg st in
  threw r = false ->
  sources (final r) = [] /\
  nextStart (final r) = 0%Q /\
  (forall n, In n (sources st) -> In n (stopped (emitted r))) /\
  (forall n w d, In (SourceStart n w d) (emitted r) -> In n (stopped (emitted r))).
Proof.
  destruct msg as [tc ot it tcmp ia intr]. cbn. intros ->.
  destruct ot as [o|], it as [i|], tcmp, ia as [[|d]|], v; cbn; flush_cases; cbn;
    try discriminate; intros _;
    rewrite ?app_nil_r, ?stopped_stop;
    (repeat split; [tauto || (intros n Hn; apply setAdd_In; now right) | ]);
    intros n w d' Hin;
    try (apply in_map_iff in Hin as (z & Hz & _); discriminate);
    (destruct Hin as [Hin|Hin];
     [injection Hin as <- _ _; apply setAdd_In; now left
     |apply in_map_iff in Hin as (z & Hz & _); discriminate]).
Qed.

Lemma step_quiet (v : source_file) (e : event) (st : state) :
  quiet e = true ->
  audioContextRef (refs st) <> None -> nextStart st = 0%Q ->
  audioContextRef (refs (final (step v e st))) <> None /\
  nextStart (final (step v e st)) = 0%Q.
Proof.
  intros Hq Hlive Hz.
  destruct e as [clock msg| | | | | | | |];
    try (match goal with
         | |- context [step v ?e st] =>
             destruct (step_other v e st I) as (_ & _ & -> & ->); now split
         end).
  - unfold quiet, carriesAudio in Hq.
    destruct (inlineAudio msg) as [a|] eqn:Ha; [discriminate|]. cbn [step].
    destruct (toolCallBlock_frame v msg st) as [Hv _].
    unfold playbackView in Hv. injection Hv as Ea Et Ec En Es Eq.
    destruct (callsThrow v msg) eqn:Hthrow.
    + rewrite onmessage_blocks.
      destruct (audioContextRef (refs st)) as [c|] eqn:Hctx; [|contradiction].
      rewrite andThen_thrown by now rewrite toolCallBlock_threw.
      unfold nextStart in *. rewrite Ea, En. split; [discriminate|exact Hz].
    + destruct (onmessage_live v clock msg st Hlive Hthrow) as (st1 & Hv1 & _ & Hf & _).
      unfold playbackView in Hv1. injection Hv1 as Fa Ft Fc Fn Fs Fq.
      destruct (afterToolCalls_no_audio v clock msg st1 Ha) as [Hctx Hn].
      cbn zeta in Hctx, Hn. rewrite Hf, Hctx, Fa. split; [exact Hlive|].
      unfold nextStart in *. rewrite Fn, Hz in Hn. now destruct Hn.
  - discriminate.
Qed.

Lemma run_quiet (v : source_file) (es : list event) (st : state) :
  forallb quiet es = true ->
  audioContextRef (refs st) <> None -> nextStart st = 0%Q ->
  audioContextRef (refs (fst (run v es st))) <> None /\
  nextStart (fst (run v es st)) = 0%Q.
Proof.
  revert st. induction es as [|e es IH]; intros st Hq Hlive Hz; [now cbn|].
  cbn in Hq. apply andb_true_iff in Hq as [Hq Hqs].
  destruct (step_quiet v e st Hq Hlive Hz) as [Hlive' Hz'].
  rewrite run_cons. cbn [fst]. now apply IH.
Qed.

(** C4, as the code has it.  An interruption whose handler runs to its
    end stops every unit of the live set, the unit the same message
    started included, leaves the live set empty and puts the cursor
    back to zero, not to the clock reading.  The output clock never
    being negative, the next chunk that is enqueued, after any events
    that enqueue nothing and do not tear the session down, starts at
    the clock reading of its own arrival. *)
Theorem interruption_cancels_playback (v : source_file) (clock : Q)
    (msg : LiveServerMessage) (st : state) :
  audioContextRef (refs st) <> None ->
  interrupted msg = true ->
  threw (onmessage v clock msg st) = false ->
  let r := onmessage v clock msg st in
  (forall n, In n (sources st) -> In n (stopped (emitted r))) /\
  (forall n w d, In (SourceStart n w d) (emitted r) -> In n (stopped (emitted r))) /\
  sources (final r) = [] /\
  nextStart (final r) = 0%Q /\
  (forall es clock' msg' d,
     forallb quiet es = true ->
     (0 <= clock')%Q ->
     inlineAudio msg' = Some (Decodes d) ->
     callsThrow v msg' = false ->
     schedule (emitted (onmessage v clock' msg' (fst (run v es (final r))))) =
       [(clock', d)]).
Proof.
  intros Hlive Hi Ht. cbn zeta.
  assert (Hc : callsThrow v msg = false).
  { destruct (callsThrow v msg) eqn:E; [|reflexivity].
    rewrite onmessage_blocks in Ht.
    destruct (audioContextRef (refs st)); [|contradiction].
    rewrite andThen_thrown in Ht by now rewrite toolCallBlock_threw.
    rewrite toolCallBlock_threw in Ht. congruence. }
  destruct (onmessage_live v clock msg st Hlive Hc) as (st1 & Hv1 & Hc1 & Hf & He & Ht1).
  rewrite Ht1 in Ht.
  unfold playbackView in Hv1. injection Hv1 as Fa Ft Fc Fn Fs Fq.
  destruct (afterToolCalls_interrupted v clock msg st1 Hi Ht) as (A1 & A2 & A3 & A4).
  assert (Hnone : forall n w d, ~ In (SourceStart n w d) (emitted (toolCallBlock v msg st))).
  { intros n w d Hin.
    rewrite forallb_forall in Hc1. now specialize (Hc1 _ Hin). }
  assert (Hlive' : audioContextRef (refs (final (onmessage v clock msg st))) <> None).
  { rewrite Hf.
    destruct msg as [tc ot it tcmp ia intr]. cbn in Hi. subst intr.
    revert Ht.
    destruct ot as [o|], it as [i|], tcmp, ia as [[|d]|], v; cbn; flush_cases; cbn;
      intros; try discriminate; now rewrite Fa. }
  rewrite Hf, He, stopped_app. repeat split.
  - intros n Hn. apply in_or_app. right. apply A3. unfold sources in *. now rewrite Fs.
  - intros n w d Hin. apply in_or_app. right.
    apply in_app_or in Hin as [Hin|Hin]; [now apply Hnone in Hin|].
    now apply (A4 n w d).
  - exact A1.
  - exact A2.
  - intros es clock' msg' d Hq Hpos Ha Hc'.
    rewrite <- Hf in A2.
    destruct (run_quiet v es _ Hq Hlive' A2) as [Hlive2 Hz2].
    rewrite <- Hf.
    destruct (onmessage_live v clock' msg' _ Hlive2 Hc') as (st3 & Hv3 & Hc3 & _ & He3 & _).
    apply callEffects_schedule in Hc3 as [Hs3 _].
    unfold playbackView in Hv3. injection Hv3 as Ga Gt Gc Gn Gs Gq.
    rewrite He3, schedule_app, Hs3, afterToolCalls_units, Ha. cbn [app].
    unfold nextStart in *. rewrite Gn, Hz2, Math_max_zero by exact Hpos.
    reflexivity.
Qed.

Lemma interruption_cancels_playback_witness :
  let r := onmessage SessionTsx (3#10)%Q interruption playing in
  sources (final r) = [] /\
  nextStart (final r) = 0%Q /\
  schedule (emitted (onmessage SessionTsx (2#5)%Q (audioMessage (1#2)%Q)
                       (fst (run SessionTsx [Second; FrameTick] (final r))))) =
    [((2#5)%Q, (1#2)%Q)].
Proof.
  assert (Hlive : audioContextRef (refs playing) <> None) by discriminate.
  destruct (interruption_cancels_playback SessionTsx (3#10)%Q interruption playing
              Hlive eq_refl eq_refl) as (_ & _ & A & B & C).
  split; [exact A|split; [exact B|]].
  apply (C [Second; FrameTick] (2#5)%Q (audioMessage (1#2)%Q) (1#2)%Q);
    try reflexivity.
  unfold Qle. cbn. lia.
Defined.

(** The units that were live are the ones stopped. *)
Example interruption_stops_live_units :
  sources playing = [1; 2] /\
  stopped (emitted (onmessage SessionTsx (3#10)%Q interruption playing)) = [1; 2].
Proof. split; reflexivity. Qed.

(** The claim as it is worded fails: after the interruption the cursor
    is at zero, not at the clock reading. *)
Lemma cursor_at_clock_counterexample :
  ~ Spec.cursorAtClock (3#10)%Q
      (final (onmessage SessionTsx (3#10)%Q interruption playing)) /\
  ~ Spec.cursorAtClock (3#10)%Q
      (final (onmessage Part001 (3#10)%Q interruption playing)).
Proof.
  split; unfold Spec.cursorAtClock; vm_compute; discriminate.
Qed.

(* ------------------------------------------------------------------ *)
(** ** Frame capture *)

Lemma frameTick_ready (v : source_file) (st : state) :
  captureReady v st = true ->
  let job := S (frameSeq (browser st)) in
  (exists w h, emitted (frameTick v st) = [DrawImage w h; ToBlob job]) /\
  framesInFlight (browser (final (frameTick v st))) =
    framesInFlight (browser st) ++ [job] /\
  captureReady v (final (frameTick v st)) = true.
Proof.
  unfold captureReady, frameTick.
  destruct (videoRef (refs st)) as [video|] eqn:Hv; [|discriminate].
  destruct (canvasRef (refs st)) as [canvas|] eqn:Hcv; [|discriminate].
  destruct (sessionRef (refs st)) as [s|] eqn:Hs; [|discriminate].
  intros Hg. rewrite Hg. cbn. rewrite Hv, Hs. repeat split; [eauto|].
  destruct v; cbn in *; exact Hg.
Qed.

Lemma frameTick_not_ready (v : source_file) (st : state) :
  captureReady v st = false -> frameTick v st = done st.
Proof.
  unfold captureReady, frameTick.
  destruct (videoRef (refs st)) as [video|]; [|reflexivity].
  destruct (canvasRef (refs st)) as [canvas|]; [|reflexivity].
  destruct (sessionRef (refs st)) as [s|]; [|reflexivity].
  now intros ->.
Qed.

(** C6, as the code has it.  The interval callback looks at the video
    element, the canvas, the session handle and the 2D context (in
    [part_001] also at the width of the video), never at the encodes in
    flight: whenever those are in place a tick draws a frame and starts
    one more encode, so [n] ticks in a row leave [n] more frames in
    flight.  Nothing is queued by the callback itself; each encode
    sends its frame when it completes. *)
Theorem frame_tick_captures_regardless (v : source_file) (st : state) :
  captureReady v st = true ->
  let job := S (frameSeq (browser st)) in
  (exists w h, emitted (frameTick v st) = [DrawImage w h; ToBlob job]) /\
  framesInFlight (browser (final (frameTick v st))) =
    framesInFlight (browser st) ++ [job] /\
  (forall n,
     List.length (framesInFlight (browser (fst (run v (repeat FrameTick n) st)))) =
     List.length (framesInFlight (browser st)) + n) /\
  (forall j base64Data st',
     sentMedia (emitted (toBlobCallback j (Some base64Data) st')) =
       [JpegMedia base64Data]).
Proof.
  intros Hr. cbn zeta.
  destruct (frameTick_ready v st Hr) as (He & Hf & _).
  repeat split; auto.
  intros n. revert st Hr He Hf. induction n as [|n IH]; intros st Hr _ _.
  - cbn. lia.
  - cbn [repeat]. rewrite run_cons. cbn [fst step].
    destruct (frameTick_ready v st Hr) as (He & Hf & Hr').
    destruct (frameTick_ready v _ Hr') as (He' & Hf' & _).
    rewrite (IH _ Hr' He' Hf'), Hf, length_app. cbn. lia.
Qed.

Lemma frame_tick_captures_regardless_witness :
  framesInFlight (browser (final (frameTick Part001 oneInFlight))) = [1; 2].
Proof.
  exact (proj1 (proj2 (frame_tick_captures_regardless Part001 oneInFlight eq_refl))).
Defined.

(** The claim as it is worded fails: with a frame in flight the tick
    captures another one. *)
Lemma tick_skipped_counterexample :
  ~ Spec.tickSkipped SessionTsx oneInFlight /\ ~ Spec.tickSkipped Part001 oneInFlight.
Proof.
  split; intros H; destruct H as [E _]; try discriminate; vm_compute in E; discriminate.
Qed.

(* ------------------------------------------------------------------ *)
(** ** Teardown *)

(** Case analysis on the refs teardown looks at. *)
Ltac teardown_cases st :=
  let re := fresh "re" in
  let br := fresh "br" in
  let fb := fresh "fb" in
  let ac := fresh "ac" in
  let se := fresh "se" in
  let fi := fresh "fi" in
  let ti := fresh "ti" in
  destruct st as [re [fb ac se ? ? ? ? ? fi ti ?] br];
  destruct se as [?|], ac as [?|], fi as [[|?]|], ti as [[|?]|], fb as [[|?]|].

Lemma cleanup_never_throws (st : state) : threw (cleanup st) = false.
Proof.
  teardown_cases st; reflexivity.
Qed.

(** Teardown leaves the same refs and state whatever it found. *)
Lemma cleanup_state (st : state) :
  final (cleanup st) =
  set_isListening false
    (set_isReady false
      (set_nextStartTimeRef 0%Q
        (set_sourcesRef []
          (set_timerIntervalRef
             match timerIntervalRef (refs st) with
             | Some (S _) => None
             | other => other
             end
            (set_frameIntervalRef
               match frameIntervalRef (refs st) with
               | Some (S _) => None
               | other => other
               end
              (set_audioContextRef None (set_sessionRef None st))))))).
Proof.
  teardown_cases st; reflexivity.
Qed.

Lemma cleanup_idempotent (st : state) :
  final (cleanup (final (cleanup st))) = final (cleanup st).
Proof.
  teardown_cases st; reflexivity.
Qed.

Lemma second_cleanup_emits (st : state) :
  emitted (cleanup (final (cleanup st))) =
  match feedbackTimeoutRef (refs st) with
  | Some (S i) => [ClearTimeout (S i)]
  | _ => []
  end.
Proof.
  teardown_cases st; reflexivity.
Qed.

(** C8, as the code has it.  Teardown never throws, and running it
    twice leaves the state that running it once leaves.  The second run
    closes no session and no audio context, clears no interval and
    stops no unit; the one call it repeats is [clearTimeout] on the cue
    timer, whose id teardown keeps in [feedbackTimeoutRef].  On a
    session that was never started teardown makes no call at all. *)
Theorem cleanup_twice (st : state) :
  let once := cleanup st in
  let twice := cleanup (final once) in
  final twice = final once /\
  threw once = false /\ threw twice = false /\
  emitted twice =
    match feedbackTimeoutRef (refs st) with
    | Some (S i) => [ClearTimeout (S i)]
    | _ => []
    end /\
  cleanup mounted = done mounted.
Proof.
  cbn zeta. repeat split.
  - apply cleanup_idempotent.
  - apply cleanup_never_throws.
  - apply cleanup_never_throws.
  - apply second_cleanup_emits.
Qed.

(** The claim as it is worded fails: once a cue has been shown, the
    second teardown clears its timer again. *)
Lemma second_teardown_counterexample :
  ~ Spec.secondTeardownSilent cueShown /\
  emitted (cleanup (final (cleanup cueShown))) = [ClearTimeout 3].
Proof.
  split; [|reflexivity].
  unfold Spec.secondTeardownSilent. vm_compute. discriminate.
Qed.

(** What the first teardown of an open session releases. *)
Example cleanup_opened :
  emitted (cleanup opened) =
  [SessionClose 3; AudioContextClose 1; AudioContextClose 2;
   ClearInterval 1; ClearInterval 2].
Proof. reflexivity. Qed.

(* ------------------------------------------------------------------ *)
(** ** Muting *)

Lemma sentMedia_app (a b : list effect) :
  sentMedia (a ++ b) = sentMedia a ++ sentMedia b.
Proof.
  induction a as [|e a IH]; cbn; [reflexivity|].
  destruct e; cbn; now rewrite IH.
Qed.

Lemma callEffects_media (out : list effect) :
  forallb isCallEffect out = true -> sentMedia out = [].
Proof.
  induction out as [|e out IH]; cbn; [auto|].
  destruct e; cbn; try discriminate; exact IH.
Qed.

Lemma handleCall_muted (v : source_file) (fc : FunctionCall) (st : state) :
  isMutedRef (refs (final (handleCall v fc st))) = isMutedRef (refs st).
Proof.
  unfold handleCall.
  destruct (String.eqb (fc_name fc) "updateVisualFeedback"); [|reflexivity].
  destruct v; [destruct (fc_args fc) as [a|]|]; try reflexivity;
    unfold andThen, publishCue, respond; cbn; reflexivity.
Qed.

Lemma forEachCall_muted (v : source_file) (fcs : list FunctionCall) (st : state) :
  isMutedRef (refs (final (forEachCall v fcs st))) = isMutedRef (refs st).
Proof.
  revert st. induction fcs as [|fc fcs IH]; intros st; cbn; [reflexivity|].
  destruct (threw (handleCall v fc st)) eqn:Ht.
  - rewrite andThen_thrown by exact Ht. apply handleCall_muted.
  - destruct (andThen_normal (handleCall v fc) (forEachCall v fcs) st Ht) as (Hf & _).
    now rewrite Hf, IH, handleCall_muted.
Qed.

Lemma afterToolCalls_muted (v : source_file) (clock : Q) (msg : LiveServerMessage)
    (st : state) :
  isMutedRef (refs (final (afterToolCalls v clock msg st))) = isMutedRef (refs st).
Proof.
  destruct msg as [tc ot it tcmp ia intr].
  destruct ot as [o|], it as [i|], tcmp, ia as [[|d]|], intr, v; cbn; flush_cases; cbn;
    reflexivity.
Qed.

(** The inbound handler neither touches [isMutedRef] nor sends media. *)
Lemma onmessage_capture (v : source_file) (clock : Q) (msg : LiveServerMessage)
    (st : state) :
  isMutedRef (refs (final (onmessage v clock msg st))) = isMutedRef (refs st) /\
  sentMedia (emitted (onmessage v clock msg st)) = [].
Proof.
  destruct (audioContextRef (refs st)) as [c|] eqn:Hctx.
  2:{ rewrite onmessage_without_contexts by exact Hctx. now cbn. }
  assert (Hm : isMutedRef (refs (final (toolCallBlock v msg st))) = isMutedRef (refs st)).
  { unfold toolCallBlock. destruct (toolCall msg); [apply forEachCall_muted|reflexivity]. }
  destruct (toolCallBlock_frame v msg st) as [_ Hc].
  apply callEffects_media in Hc.
  destruct (callsThrow v msg) eqn:Hthrow.
  - rewrite onmessage_blocks, Hctx, andThen_thrown by now rewrite toolCallBlock_threw.
    auto.
  - rewrite onmessage_blocks, Hctx.
    assert (Ht : threw (toolCallBlock v msg st) = false)
      by now rewrite toolCallBlock_threw.
    destruct (andThen_normal (toolCallBlock v msg) (afterToolCalls v clock msg) st Ht)
      as (Hf & He & _).
    rewrite Hf, He, sentMedia_app, Hc, afterToolCalls_muted, Hm.
    destruct (playbackEffects_acks _
                (afterToolCalls_effects v clock msg (final (toolCallBlock v msg st))))
      as [_ ->].
    auto.
Qed.

Lemma sentMedia_stop (l : list nat) : sentMedia (map SourceStop l) = [].
Proof. induction l; cbn; auto. Qed.

(** Teardown neither touches [isMutedRef] nor sends media. *)
Lemma cleanup_capture (st : state) :
  isMutedRef (refs (final (cleanup st))) = isMutedRef (refs st) /\
  sentMedia (emitted (cleanup st)) = [].
Proof.
  teardown_cases st; cbn; rewrite ?app_nil_r, ?sentMedia_stop; auto.
Qed.

Lemma audioFrames_app (a b : list effect) :
  audioFrames (a ++ b) = audioFrames a ++ audioFrames b.
Proof.
  unfold audioFrames. now rewrite sentMedia_app, flat_map_app.
Qed.

(** Muted, no callback other than the mute button sends an audio frame
    or clears [isMutedRef]. *)
Lemma step_muted (v : source_file) (e : event) (st : state) :
  e <> MuteClick ->
  isMutedRef (refs st) = true ->
  isMutedRef (refs (final (step v e st))) = true /\
  audioFrames (emitted (step v e st)) = [].
Proof.
  intros He Hm. destruct e as [clock msg|inputData| |job blob|source| | | |]; cbn [step].
  - destruct (onmessage_capture v clock msg st) as [-> H].
    unfold audioFrames. now rewrite H.
  - unfold onaudioprocess. rewrite Hm. now cbn.
  - unfold frameTick.
    destruct (videoRef (refs st)) as [video|]; [|now cbn].
    destruct (canvasRef (refs st)) as [canvas|]; [|now cbn].
    destruct (sessionRef (refs st)); [|now cbn].
    destruct (frameGuard v video canvas); now cbn.
  - unfold toBlobCallback. destruct blob; now cbn.
  - now cbn.
  - now cbn.
  - now cbn.
  - contradiction.
  - destruct (cleanup_capture st) as [-> H].
    unfold audioFrames. now rewrite H.
Qed.

(** C7.  While [isMutedRef] is set, audio blocks are dropped before
    they are encoded.  Whatever blocks the script processor delivers,
    nothing is emitted and the state stays as it is; and in any run of
    the session that starts muted and in which the mute button is not
    clicked, whatever else happens, no audio frame goes out. *)
Theorem muted_blocks_are_dropped (v : source_file) (st : state) :
  isMutedRef (refs st) = true ->
  (forall blocks : list (list Q), run v (map AudioProcess blocks) st = (st, [])) /\
  (forall es : list event,
     Forall (fun e => e <> MuteClick) es -> audioFrames (snd (run v es st)) = []).
Proof.
  intros Hm. split.
  - intros blocks. induction blocks as [|b blocks IH]; cbn.
    + reflexivity.
    + unfold onaudioprocess. rewrite Hm. cbn. now rewrite IH.
  - intros es. revert st Hm. induction es as [|e es IH]; intros st Hm Hall.
    + reflexivity.
    + inversion Hall as [|x l He Hall']; subst.
      destruct (step_muted v e st He Hm) as [Hm' Hout].
      rewrite run_cons. cbn [snd]. rewrite audioFrames_app, Hout.
      now apply IH.
Qed.

Lemma muted_blocks_are_dropped_witness :
  run Part001 (map AudioProcess [[(1#2)%Q; (-1#4)%Q]; [0%Q]])
      (final (toggleMute opened)) = (final (toggleMute opened), []).
Proof.
  apply (muted_blocks_are_dropped Part001 (final (toggleMute opened))).
  reflexivity.
Defined.

(** Not muted, every block goes out as one audio frame. *)
Lemma unmuted_block_is_sent (st : state) (inputData : list Q) :
  isMutedRef (refs st) = false ->
  onaudioprocess inputData st =
  emit [sendRealtimeInput (PcmMedia (createPcmBlob inputData))] st.
Proof.
  intros Hm. unfold onaudioprocess. now rewrite Hm.
Qed.

(* ------------------------------------------------------------------ *)
(** ** The focus topics of the setup form *)

Lemma includes_In (f : string) (l : list string) :
  Setup.includes f l = true <-> In f l.
Proof.
  unfold Setup.includes. rewrite existsb_exists. split.
  - intros (x & Hx & E). apply String.eqb_eq in E. now subst.
  - intros H. exists f. split; [exact H|apply String.eqb_refl].
Qed.

Lemma includes_not_In (f : string) (l : list string) :
  Setup.includes f l = false <-> ~ In f l.
Proof.
  rewrite <- includes_In. destruct (Setup.includes f l); intuition congruence.
Qed.

Lemma filter_other_In (f g : string) (l : list string) :
  In g (filter (fun x => negb (String.eqb x f)) l) <-> g <> f /\ In g l.
Proof.
  rewrite filter_In, negb_true_iff, String.eqb_neq. tauto.
Qed.

(** X1.  A click on a topic flips that topic and no other: afterwards the
    topic is selected exactly when it was not before, every other topic
    is selected exactly when it was, and a topic that gets selected
    goes to the end of the list. *)
Theorem focus_toggle_flips_one (f : string) (prev : list string) :
  (In f (Setup.handleFocusToggle f prev) <-> ~ In f prev) /\
  (forall g, g <> f -> (In g (Setup.handleFocusToggle f prev) <-> In g prev)) /\
  (Setup.includes f prev = false -> Setup.handleFocusToggle f prev = prev ++ [f]).
Proof.
  unfold Setup.handleFocusToggle.
  destruct (Setup.includes f prev) eqn:E.
  - apply includes_In in E. split; [|split].
    + rewrite filter_other_In. tauto.
    + intros g Hg. rewrite filter_other_In. tauto.
    + discriminate.
  - apply includes_not_In in E. split; [|split].
    + rewrite in_app_iff. cbn. tauto.
    + intros g Hg. rewrite in_app_iff. cbn. intuition congruence.
    + reflexivity.
Qed.

Lemma handleFocusToggle_NoDup (f : string) (prev : list string) :
  NoDup prev -> NoDup (Setup.handleFocusToggle f prev).
Proof.
  intros Hn. unfold Setup.handleFocusToggle.
  destruct (Setup.includes f prev) eqn:E.
  - now apply NoDup_filter.
  - apply includes_not_In in E.
    apply NoDup_app; [exact Hn|repeat constructor; intros []|].
    intros x Hx [<-|[]]. contradiction.
Qed.

(** X2.  Whatever the clicks, the list of focus topics never holds a topic
    twice, provided it did not at the start (the form starts with two
    different topics). *)
Theorem focus_never_repeats (fs : list string) (focus : list string) :
  NoDup focus -> NoDup (Setup.clicks fs focus).
Proof.
  revert focus. induction fs as [|f fs IH]; intros focus Hn; cbn.
  - exact Hn.
  - apply IH. now apply handleFocusToggle_NoDup.
Qed.

Lemma focus_never_repeats_witness :
  NoDup (Setup.clicks ["Coding"; "Communication"; "Coding"; "Communication"]
           Setup.initialFocus).
Proof.
  apply (focus_never_repeats ["Coding"; "Communication"; "Coding"; "Communication"]
           Setup.initialFocus).
  repeat constructor; cbn; intuition discriminate.
Defined.

Lemma filter_absent (f : string) (l : list string) :
  ~ In f l -> filter (fun x => negb (String.eqb x f)) l = l.
Proof.
  induction l as [|x l IH]; cbn; [reflexivity|].
  intros H. destruct (String.eqb_spec x f) as [->|Hne]; cbn.
  - exfalso. apply H. now left.
  - rewrite IH; [reflexivity|]. intros Hin. apply H. now right.
Qed.

(** X3.  Two clicks on the same topic: selecting and deselecting gives the
    list back; deselecting and reselecting a selected topic moves it to
    the end, the other topics keeping their order. *)
Theorem focus_toggle_twice (f : string) (prev : list string) :
  Setup.handleFocusToggle f (Setup.handleFocusToggle f prev) =
  if Setup.includes f prev
  then filter (fun x => negb (String.eqb x f)) prev ++ [f]
  else prev.
Proof.
  unfold Setup.handleFocusToggle at 2.
  destruct (Setup.includes f prev) eqn:E.
  - unfold Setup.handleFocusToggle.
    assert (Hout : Setup.includes f (filter (fun x => negb (String.eqb x f)) prev) = false).
    { apply includes_not_In. intros H. apply filter_other_In in H. tauto. }
    now rewrite Hout.
  - apply includes_not_In in E. unfold Setup.handleFocusToggle.
    assert (Hin : Setup.includes f (prev ++ [f]) = true).
    { apply includes_In, in_or_app. right. now left. }
    rewrite Hin, filter_app, (filter_absent f prev E). cbn.
    rewrite String.eqb_refl. cbn. apply app_nil_r.
Qed.

(* ------------------------------------------------------------------ *)
(** ** From the history to the transcript and back *)

Lemma split_no_sep (sep : ascii) (s : string) :
  ~ In sep (list_ascii_of_string s) -> Evaluation.split sep s = [s].
Proof.
  induction s as [|c s IH]; cbn; [reflexivity|].
  intros H. destruct (Ascii.eqb_spec c sep) as [->|Hne].
  - exfalso. apply H. now left.
  - rewrite IH; [reflexivity|]. intros Hin. apply H. now right.
Qed.

Lemma split_at_sep (sep : ascii) (a b : string) :
  ~ In sep (list_ascii_of_string a) ->
  Evaluation.split sep (a ++ String sep b) = a :: Evaluation.split sep b.
Proof.
  induction a as [|c a IH]; cbn.
  - intros _. now rewrite Ascii.eqb_refl.
  - intros H. destruct (Ascii.eqb_spec c sep) as [->|Hne].
    + exfalso. apply H. now left.
    + rewrite IH; [reflexivity|]. intros Hin. apply H. now right.
Qed.

Lemma split_join (sep : ascii) (pieces : list string) :
  pieces <> [] ->
  Forall (fun s => ~ In sep (list_ascii_of_string s)) pieces ->
  Evaluation.split sep (Evaluation.join (String sep EmptyString) pieces) = pieces.
Proof.
  induction pieces as [|x rest IH]; [congruence|].
  intros _ Hall. inversion Hall as [|y l Hx Hrest]; subst.
  destruct rest as [|z rest].
  - cbn. now apply split_no_sep.
  - cbn [Evaluation.join]. cbn [append].
    rewrite (split_at_sep sep x _ Hx). f_equal.
    apply IH; [discriminate|exact Hrest].
Qed.

Lemma list_ascii_app (a b : string) :
  list_ascii_of_string (a ++ b) = list_ascii_of_string a ++ list_ascii_of_string b.
Proof.
  induction a as [|c a IH]; cbn; [reflexivity|now rewrite IH].
Qed.

Lemma line_singleLine (h : TranscriptionTurn) :
  Evaluation.singleLine (text h) -> Evaluation.singleLine (Evaluation.line h).
Proof.
  unfold Evaluation.singleLine, Evaluation.line. intros H Hin.
  rewrite !list_ascii_app in Hin.
  apply in_app_or in Hin as [Hin|Hin].
  - destruct (role h); cbn in Hin;
      repeat (destruct Hin as [Hin|Hin]; [discriminate|]); exact Hin.
  - apply in_app_or in Hin as [Hin|Hin]; [|contradiction].
    cbn in Hin. repeat (destruct Hin as [Hin|Hin]; [discriminate|]). exact Hin.
Qed.

Lemma bubble_line (h : TranscriptionTurn) :
  JS.trimStart (text h) = text h ->
  Evaluation.bubble (Evaluation.line h) = Evaluation.bubbleOf h.
Proof.
  intros Ht. unfold Evaluation.bubble, Evaluation.bubbleOf, Evaluation.line,
    Evaluation.startsWith, Evaluation.withoutSpeaker.
  destruct (role h); cbn; now rewrite Ht.
Qed.

Lemma feed_transcriptOf (history : list TranscriptionTurn) :
  history <> [] ->
  Forall (fun h => Evaluation.singleLine (text h) /\ JS.trimStart (text h) = text h)
         history ->
  Evaluation.feed (Evaluation.transcriptOf history) = map Evaluation.bubbleOf history.
Proof.
  intros Hne Hall. unfold Evaluation.feed, Evaluation.transcriptOf.
  rewrite split_join.
  - rewrite map_map. apply map_ext_in. intros h Hin.
    rewrite Forall_forall in Hall. apply bubble_line, Hall, Hin.
  - destruct history; [congruence|discriminate].
  - rewrite Forall_map. eapply Forall_impl; [|exact Hall].
    intros h [Hs _]. now apply line_singleLine.
Qed.

(** X4.  The report reads back what the evaluation service wrote.  For a
    history that is not empty and whose texts hold no line break and do
    not begin with white space, the lines of the transcript, split and
    stripped of their speaker as the report does, are the turns of the
    history, in order, each on its speaker's side with its text. *)
Theorem report_reads_back_history (history : list TranscriptionTurn) :
  history <> [] ->
  Forall (fun h => Evaluation.singleLine (text h) /\ JS.trimStart (text h) = text h)
         history ->
  Evaluation.feed (Evaluation.transcriptOf history) = map Evaluation.bubbleOf history.
Proof.
  exact (feed_transcriptOf history).
Qed.

Lemma report_reads_back_history_witness :
  Evaluation.feed
    (Evaluation.transcriptOf
       [{| role := RoleInterviewer; text := "Tell me about yourself." |};
        {| role := RoleUser; text := "I build compilers." |}]) =
  [(true, "Tell me about yourself."); (false, "I build compilers.")].
Proof.
  apply (report_reads_back_history
           [{| role := RoleInterviewer; text := "Tell me about yourself." |};
            {| role := RoleUser; text := "I build compilers." |}]).
  - discriminate.
  - repeat constructor; cbn; try reflexivity;
      unfold Evaluation.singleLine; cbn; intuition discriminate.
Defined.

Lemma split_length (sep : ascii) (s : string) :
  List.length (Evaluation.split sep s) =
  S (count_occ Ascii.ascii_dec (list_ascii_of_string s) sep).
Proof.
  induction s as [|c s IH]; cbn; [reflexivity|].
  destruct (Ascii.eqb_spec c sep) as [->|Hne].
  - destruct (Ascii.ascii_dec sep sep); [|congruence]. cbn. now rewrite IH.
  - destruct (Ascii.ascii_dec c sep); [congruence|].
    destruct (Evaluation.split sep s); cbn in *; [discriminate|exact IH].
Qed.

Lemma join_more (sep x y : string) (rest : list string) :
  Evaluation.join sep (x :: y :: rest) =
  (x ++ sep ++ Evaluation.join sep (y :: rest))%string.
Proof. reflexivity. Qed.

Lemma count_join (sep : ascii) (pieces : list string) :
  count_occ Ascii.ascii_dec
    (list_ascii_of_string (Evaluation.join (String sep EmptyString) pieces)) sep =
  (List.length pieces - 1) +
  list_sum (map (fun s => count_occ Ascii.ascii_dec (list_ascii_of_string s) sep) pieces).
Proof.
  induction pieces as [|x rest IH]; [reflexivity|].
  destruct rest as [|y rest].
  - cbn. lia.
  - rewrite join_more, !list_ascii_app, !count_occ_app, IH.
    cbn [list_ascii_of_string].
    rewrite count_occ_cons_eq by reflexivity.
    cbn [List.length map list_sum fold_right count_occ]. lia.
Qed.

Lemma count_line (h : TranscriptionTurn) :
  count_occ Ascii.ascii_dec (list_ascii_of_string (Evaluation.line h)) Evaluation.newline =
  count_occ Ascii.ascii_dec (list_ascii_of_string (text h)) Evaluation.newline.
Proof.
  unfold Evaluation.line. rewrite !list_ascii_app, !count_occ_app.
  destruct (role h); reflexivity.
Qed.

(** X5.  How many bubbles the report shows: one for each turn and one more
    for each line break inside a text, and a single bubble when the
    history is empty. *)
Theorem report_bubble_count (history : list TranscriptionTurn) :
  List.length (Evaluation.feed (Evaluation.transcriptOf history)) =
  Nat.max 1 (List.length history) +
  list_sum (map (fun h => count_occ Ascii.ascii_dec (list_ascii_of_string (text h))
                            Evaluation.newline) history).
Proof.
  unfold Evaluation.feed, Evaluation.transcriptOf.
  rewrite length_map, split_length, (count_join Evaluation.newline), length_map, map_map.
  rewrite (map_ext _ _ count_line).
  destruct history; cbn [List.length]; lia.
Qed.

(* ------------------------------------------------------------------ *)
(** ** The base64 text of a frame *)

(** X6.  From a data URL whose header holds no comma, [blobToBase64] takes
    the payload, whole when the payload holds no comma either (base64
    text never does); from a text without any comma it takes nothing. *)
Theorem blobToBase64_takes_payload (header payload : string) :
  DataUrl.commaFree header ->
  DataUrl.commaFree payload ->
  DataUrl.blobToBase64 (header ++ String DataUrl.comma payload) = Some payload /\
  DataUrl.blobToBase64 header = None.
Proof.
  intros Hh Hp. unfold DataUrl.blobToBase64. split.
  - rewrite (split_at_sep DataUrl.comma header payload Hh).
    now rewrite (split_no_sep DataUrl.comma payload Hp).
  - now rewrite (split_no_sep DataUrl.comma header Hh).
Qed.

Lemma blobToBase64_takes_payload_witness :
  DataUrl.blobToBase64 "data:image/jpeg;base64,/9j/4AAQSkZJRg==" =
    Some "/9j/4AAQSkZJRg==".
Proof.
  apply (blobToBase64_takes_payload "data:image/jpeg;base64" "/9j/4AAQSkZJRg==");
    unfold DataUrl.commaFree; cbn; intuition discriminate.
Defined.

(* ------------------------------------------------------------------ *)
(** ** Usage statistics *)

Lemma dayMs_pos : (0 < Stats.dayMs)%Z.
Proof. reflexivity. Qed.

Lemma Math_ceil_div_spec (a b q r : Z) :
  (0 < b)%Z -> a = (q * b + r)%Z -> (0 <= r < b)%Z ->
  Stats.Math_ceil_div a b = if (r =? 0)%Z then q else (q + 1)%Z.
Proof.
  intros Hb Ha Hr. unfold Stats.Math_ceil_div.
  destruct (Z.eqb_spec r 0) as [->|Hne].
  - replace (- a)%Z with ((- q) * b)%Z by lia.
    rewrite Z.div_mul by lia. lia.
  - assert (E : ((- a) / b = - q - 1)%Z).
    { symmetry. apply (Z.div_unique_pos (- a) b (- q - 1) (b - r)); lia. }
    rewrite E. lia.
Qed.

(** The days counted between the last session and now, [k] whole days
    and [r] milliseconds after the midnight that begins the day of the
    last session. *)
Lemma diffDays_spec (lastDate k r : Z) :
  (0 <= k)%Z -> (0 <= r < Stats.dayMs)%Z ->
  Stats.diffDays (Stats.dateTime lastDate + k * Stats.dayMs + r) lastDate =
  if (r =? 0)%Z then k else (k + 1)%Z.
Proof.
  intros Hk Hr. unfold Stats.diffDays.
  pose proof dayMs_pos as Hd.
  apply Math_ceil_div_spec; [exact Hd| |exact Hr].
  rewrite Z.abs_eq by nia. unfold Stats.dateTime. ring.
Qed.

(** X7.  The streak, as the code counts it.  Let the last session be dated
    some day, and let now be [k] whole days and [r] milliseconds past
    the midnight (UTC) that begins that day.  Later on the same day the
    streak grows by one; on a following day it falls back to one,
    except at the very first millisecond of the next day, where it
    grows by one; at the very midnight of the same day it stays. *)
Theorem streak_by_the_clock (oldStats : Stats.UserStats) (lastDate k r score : Z) :
  Stats.lastSessionDate oldStats = Some lastDate ->
  (0 <= k)%Z -> (0 <= r < Stats.dayMs)%Z ->
  let now := (Stats.dateTime lastDate + k * Stats.dayMs + r)%Z in
  Stats.currentStreak (Stats.updateStats now score oldStats) =
    if (k =? 0)%Z then
      if (r =? 0)%Z then Stats.currentStreak oldStats
      else (Stats.currentStreak oldStats + 1)%Z
    else if ((k =? 1) && (r =? 0))%Z then (Stats.currentStreak oldStats + 1)%Z
    else 1%Z.
Proof.
  intros Hl Hk Hr. cbn zeta. unfold Stats.updateStats. cbn [Stats.currentStreak].
  unfold Stats.newStreak. rewrite Hl, (diffDays_spec lastDate k r Hk Hr).
  repeat match goal with
         | |- context [Z.eqb ?a ?b] => destruct (Z.eqb_spec a b)
         | |- context [Z.ltb ?a ?b] => destruct (Z.ltb_spec a b)
         end; cbn [andb]; try reflexivity; lia.
Qed.

(** A first session on Monday at noon, a second on Monday evening, a
    third on Tuesday morning. *)
Lemma streak_by_the_clock_witness :
  let monday := Stats.updateStats (12 * 3600000)%Z 70%Z Stats.INITIAL_STATS in
  let evening := Stats.updateStats (0 * Stats.dayMs + 20 * 3600000)%Z 75%Z monday in
  let tuesday := Stats.updateStats (1 * Stats.dayMs + 9 * 3600000)%Z 80%Z evening in
  Stats.currentStreak evening = 2%Z /\ Stats.currentStreak tuesday = 1%Z.
Proof.
  cbn zeta. split.
  - apply (streak_by_the_clock
             (Stats.updateStats (12 * 3600000)%Z 70%Z Stats.INITIAL_STATS)
             0%Z 0%Z (20 * 3600000)%Z 75%Z); [reflexivity|lia|].
    unfold Stats.dayMs. lia.
  - apply (streak_by_the_clock
             (Stats.updateStats (0 * Stats.dayMs + 20 * 3600000)%Z 75%Z
                (Stats.updateStats (12 * 3600000)%Z 70%Z Stats.INITIAL_STATS))
             0%Z 1%Z (9 * 3600000)%Z 80%Z); [reflexivity|lia|].
    unfold Stats.dayMs. lia.
Defined.






(* ------------------------------------------------------------------ *)
(** ** The sentences of a partial transcript *)

Lemma span_app (p : ascii -> bool) (s : string) :
  (fst (Sentences.span p s) ++ snd (Sentences.span p s))%string = s /\
  String.length (snd (Sentences.span p s)) <= String.length s.
Proof.
  induction s as [|c s [IH1 IH2]]; cbn; [auto|].
  destruct (p c); cbn; [|auto].
  destruct (Sentences.span p s) as [a b]. cbn in *. split; [now rewrite IH1|lia].
Qed.

Lemma letters_app (a b : string) :
  Sentences.letters (a ++ b) = (Sentences.letters a ++ Sentences.letters b)%string.
Proof.
  induction a as [|c a IH]; cbn; [reflexivity|].
  destruct (Sentences.isEndMark c); cbn; now rewrite IH.
Qed.

Lemma matches_letters (fuel : nat) (s : string) :
  String.length s <= fuel ->
  Sentences.letters (concatAll (Sentences.matches fuel s)) = Sentences.letters s /\
  Forall (fun piece => piece <> EmptyString) (Sentences.matches fuel s).
Proof.
  revert s. induction fuel as [|fuel IH]; intros s Hlen.
  - destruct s; [cbn; auto|cbn in Hlen; lia].
  - destruct s as [|c s]; [cbn; auto|].
    cbn [Sentences.matches]. cbn in Hlen.
    destruct (Sentences.isEndMark c) eqn:Ec.
    + destruct (IH s ltac:(lia)) as [I1 I2]. cbn [Sentences.letters].
      rewrite Ec. auto.
    + cbn [Sentences.span]. rewrite Ec. cbn [negb].
      destruct (span_app (fun x => negb (Sentences.isEndMark x)) s) as [A1 A2].
      destruct (Sentences.span (fun x => negb (Sentences.isEndMark x)) s) as [words r1].
      destruct (span_app Sentences.isEndMark r1) as [B1 B2].
      destruct (Sentences.span Sentences.isEndMark r1) as [marks r2].
      destruct (span_app JS.isWhiteSpace r2) as [C1 C2].
      destruct (Sentences.span JS.isWhiteSpace r2) as [spaces r3].
      cbn [fst snd] in *.
      destruct (IH r3 ltac:(lia)) as [I1 I2].
      split; [|constructor; [discriminate|exact I2]].
      cbn [concatAll fold_right]. fold (concatAll (Sentences.matches fuel r3)).
      rewrite letters_app, I1, <- letters_app.
      f_equal. cbn [append]. f_equal.
      rewrite !append_assoc, C1, B1. exact A1.
Qed.

(** X10.  [renderSentences] never loses a letter.  It returns nothing for the
    empty text only; otherwise it lays out at least one piece (so one
    piece, the last, is the highlighted one), no piece is empty, and
    the pieces put together hold, in order, every character of the text
    that is not an end mark. *)
Theorem sentences_keep_letters (text : string) :
  match Sentences.renderSentences text with
  | None => text = EmptyString
  | Some pieces =>
      pieces <> [] /\
      Forall (fun piece => piece <> EmptyString) pieces /\
      Sentences.letters (concatAll pieces) = Sentences.letters text
  end.
Proof.
  unfold Sentences.renderSentences.
  destruct text as [|c s]; [reflexivity|].
  destruct (matches_letters (String.length (String c s)) (String c s) (le_n _))
    as [H1 H2].
  destruct (Sentences.matches (String.length (String c s)) (String c s)) as [|p ps].
  - split; [discriminate|]. split; [repeat constructor; discriminate|].
    cbn [concatAll fold_right]. now rewrite append_empty_r.
  - split; [discriminate|]. split; [exact H2|exact H1].
Qed.

Example renderSentences_two :
  Sentences.renderSentences "Hi there. How are you?" =
    Some ["Hi there. "; "How are you?"] /\
  Sentences.renderSentences "...wait" = Some ["wait"] /\
  Sentences.renderSentences "?!" = Some ["?!"].
Proof. repeat split; reflexivity. Qed.

(* ------------------------------------------------------------------ *)
(** ** The application around the session *)





(* ------------------------------------------------------------------ *)
(** ** The turn history over a whole session *)

Lemma trimEnd_head (c : ascii) (s : string) :
  JS.trimEnd (String c s) = EmptyString \/
  exists t, JS.trimEnd (String c s) = String c t.
Proof.
  cbn. destruct (JS.trimEnd s) as [|d t].
  - destruct (JS.isWhiteSpace c); [now left|right; now exists EmptyString].
  - right. now exists (String d t).
Qed.

Lemma trimEnd_idempotent (s : string) : JS.trimEnd (JS.trimEnd s) = JS.trimEnd s.
Proof.
  induction s as [|c s IH]; [reflexivity|]. cbn.
  destruct (JS.trimEnd s) as [|d t] eqn:E.
  - destruct (JS.isWhiteSpace c) eqn:Ec; cbn; [reflexivity|now rewrite Ec].
  - cbn in IH |- *. now rewrite IH.
Qed.

Lemma trimStart_head (s : string) :
  JS.trimStart s = EmptyString \/
  exists c t, JS.trimStart s = String c t /\ JS.isWhiteSpace c = false.
Proof.
  induction s as [|c s IH]; cbn; [now left|].
  destruct (JS.isWhiteSpace c) eqn:Ec; [exact IH|].
  right. now exists c, s.
Qed.

(** A trimmed text starts with no white space. *)
Lemma trimStart_trim (s : string) : JS.trimStart (JS.trim s) = JS.trim s.
Proof.
  unfold JS.trim. destruct (trimStart_head s) as [->|(c & t & -> & Hc)]; [reflexivity|].
  destruct (trimEnd_head c t) as [->|(u & ->)]; [reflexivity|].
  cbn. now rewrite Hc.
Qed.

Lemma trim_idempotent (s : string) : JS.trim (JS.trim s) = JS.trim s.
Proof.
  unfold JS.trim at 1. rewrite trimStart_trim. unfold JS.trim.
  apply trimEnd_idempotent.
Qed.

Lemma newTurns_finalized (a b : string) :
  Forall finalized (newTurns (JS.trim a) (JS.trim b)).
Proof.
  unfold newTurns.
  destruct (JS.truthy (JS.trim a)) eqn:Ea, (JS.truthy (JS.trim b)) eqn:Eb;
    cbn [app];
    repeat (apply Forall_cons;
            [split; cbn [text]; [assumption|apply trim_idempotent]|]);
    apply Forall_nil.
Qed.

Lemma afterToolCalls_history (v : source_file) (clock : Q) (msg : LiveServerMessage)
    (st : state) :
  exists added,
    transcript (final (afterToolCalls v clock msg st)) = transcript st ++ added /\
    Forall finalized added.
Proof.
  destruct (turnComplete msg) eqn:Hb.
  - destruct (afterToolCalls_boundary v clock msg st Hb) as (H & _).
    cbn zeta in H. eexists. split; [exact H|apply newTurns_finalized].
  - destruct (afterToolCalls_delta v clock msg st Hb) as (H & _).
    cbn zeta in H. exists []. rewrite app_nil_r. split; [exact H|constructor].
Qed.

Lemma onmessage_history (v : source_file) (clock : Q) (msg : LiveServerMessage)
    (st : state) :
  exists added,
    transcript (final (onmessage v clock msg st)) = transcript st ++ added /\
    Forall finalized added.
Proof.
  destruct (audioContextRef (refs st)) as [c|] eqn:Hctx.
  2:{ rewrite onmessage_without_contexts by exact Hctx.
      exists []. rewrite app_nil_r. split; [reflexivity|constructor]. }
  destruct (toolCallBlock_frame v msg st) as [Hv _].
  unfold playbackView in Hv. injection Hv as Ea Et Ec En Es Eq.
  destruct (callsThrow v msg) eqn:Hthrow.
  - rewrite onmessage_blocks, Hctx, andThen_thrown by now rewrite toolCallBlock_threw.
    exists []. rewrite app_nil_r. unfold transcript. split; [exact Ec|constructor].
  - assert (Hlive : audioContextRef (refs st) <> None) by now rewrite Hctx.
    destruct (onmessage_live v clock msg st Hlive Hthrow) as (st1 & Hv1 & _ & Hf & _).
    unfold playbackView in Hv1. injection Hv1 as Fa Ft Fc Fn Fs Fq.
    destruct (afterToolCalls_history v clock msg st1) as (added & Ha & Hw).
    exists added. rewrite Hf, Ha. unfold transcript. now rewrite Fc.
Qed.

Lemma step_history (v : source_file) (e : event) (st : state) :
  exists added,
    transcript (final (step v e st)) = transcript st ++ added /\
    Forall finalized added.
Proof.
  destruct e as [clock msg|inputData| |job blob|source| | | |]; cbn [step];
    try apply onmessage_history;
    exists []; rewrite app_nil_r; (split; [|constructor]).
  - unfold onaudioprocess. now destruct (isMutedRef (refs st)).
  - unfold frameTick.
    destruct (videoRef (refs st)) as [video|]; [|reflexivity].
    destruct (canvasRef (refs st)) as [canvas|]; [|reflexivity].
    destruct (sessionRef (refs st)); [|reflexivity].
    now destruct (frameGuard v video canvas).
  - unfold toBlobCallback. now destruct blob.
  - reflexivity.
  - reflexivity.
  - reflexivity.
  - reflexivity.
  - teardown_cases st; reflexivity.
Qed.

Lemma run_history (v : source_file) (es : list event) (st : state) :
  exists added,
    transcript (fst (run v es st)) = transcript st ++ added /\
    Forall finalized added.
Proof.
  revert st. induction es as [|e es IH]; intros st.
  - exists []. cbn. rewrite app_nil_r. split; [reflexivity|constructor].
  - destruct (step_history v e st) as (a1 & H1 & W1).
    destruct (IH (final (step v e st))) as (a2 & H2 & W2).
    exists (a1 ++ a2). rewrite run_cons. cbn [fst].
    rewrite H2, H1, app_assoc. split; [reflexivity|now apply Forall_app].
Qed.

(** X12.  The history only grows, and only by finalized turns: whatever
    happens in a session (messages, captures, timers, mute, teardown),
    the history at the end is the history at the start followed by
    turns whose text is not empty and is trimmed at both ends.  No turn
    is ever removed, reordered or rewritten. *)
Theorem history_only_grows (v : source_file) (es : list event) (st : state) :
  exists added,
    transcript (fst (run v es st)) = transcript st ++ added /\
    Forall finalized added.
Proof.
  exact (run_history v es st).
Qed.

(** X13.  From the session to the report.  Take any session that started
    with an empty history; finish it, let the evaluation arrive while
    the application holds a configuration.  Then the application is in
    the report view with an analysis carrying the elapsed time of the
    session, and, when the history is not empty and no recorded text
    holds a line break, the report shows exactly the turns of the
    session, in order, each on its speaker's side. *)
Theorem report_shows_the_session (v : source_file) (es : list event) (st : state)
    (app : App.AppState) (now : Z) (data : App.Reply) :
  transcript st = [] ->
  App.config app <> None ->
  let session := fst (run v es st) in
  let app' :=
    App.handleInterviewComplete now (Some data) (fst (handleFinish session))
      (snd (handleFinish session)) app in
  exists a,
    App.analysis app' = Some a /\
    App.status app' = App.COMPLETED /\
    App.history app' = transcript session /\
    App.duration a = Some (formatTime (secondsElapsed (react session))) /\
    (transcript session <> [] ->
     Forall (fun t => Evaluation.singleLine (text t)) (transcript session) ->
     Evaluation.feed (App.transcript a) = map Evaluation.bubbleOf (transcript session)).
Proof.
  intros Hempty Hcfg. cbn zeta.
  destruct (run_history v es st) as (added & Ha & Hw).
  rewrite Hempty, app_nil_l in Ha.
  unfold App.handleInterviewComplete.
  destruct (App.config app) as [cfg|]; [|contradiction].
  eexists. cbn. repeat split.
  intros Hne Hlines. apply feed_transcriptOf; [exact Hne|].
  fold (transcript (fst (run v es st))). rewrite Ha in *.
  rewrite Forall_forall in *. intros t Hin. split; [now apply Hlines|].
  destruct (Hw t Hin) as [_ Ht]. rewrite <- Ht. apply trimStart_trim.
Qed.

Lemma report_shows_the_session_witness :
  exists a,
    App.analysis
      (App.handleInterviewComplete 0%Z
         (Some {| App.replyScore := 80%Z; App.replyClarity := 80%Z;
                  App.replyConfidence := 80%Z; App.replyCommunication := 80%Z;
                  App.replyTechnicalKnowledge := 80%Z; App.replyStrengths := [];
                  App.replyWeaknesses := []; App.replyRecommendations := [] |})
         (fst (handleFinish (fst (run Part001
            (messages [(0%Q, modelDelta "Tell me about yourself. ");
                       (1%Q, turnBoundary);
                       (2%Q, userDelta " I build compilers.");
                       (3%Q, turnBoundary)]) opened))))
         "00:00"
         (App.handleStartInterview
            {| App.role := "Engineer"; App.company := "";
               App.difficulty := App.Senior; App.focus := Setup.initialFocus |}
            App.initial)) = Some a /\
    Evaluation.feed (App.transcript a) =
      [(true, "Tell me about yourself."); (false, "I build compilers.")].
Proof.
  destruct (report_shows_the_session Part001
              (messages [(0%Q, modelDelta "Tell me about yourself. ");
                         (1%Q, turnBoundary);
                         (2%Q, userDelta " I build compilers.");
                         (3%Q, turnBoundary)]) opened
              (App.handleStartInterview
                 {| App.role := "Engineer"; App.company := "";
                    App.difficulty := App.Senior; App.focus := Setup.initialFocus |}
                 App.initial)
              0%Z
              {| App.replyScore := 80%Z; App.replyClarity := 80%Z;
                 App.replyConfidence := 80%Z; App.replyCommunication := 80%Z;
                 App.replyTechnicalKnowledge := 80%Z; App.replyStrengths := [];
                 App.replyWeaknesses := []; App.replyRecommendations := [] |}
              eq_refl) as (a & Ha & _ & _ & _ & Hfeed).
  - discriminate.
  - exists a. split; [exact Ha|].
    rewrite Hfeed.
    + reflexivity.
    + discriminate.
    + vm_compute. repeat constructor; intuition discriminate.
Defined.

(* ------------------------------------------------------------------ *)
(** ** Units that have ended *)

Lemma stopped_In_stop (n : nat) (l : list nat) :
  In n (stopped (map SourceStop l)) <-> In n l.
Proof. now rewrite stopped_stop. Qed.

(** What the blocks past the tool-call loop can stop or keep live:
    units that were live, or the unit they have just started, whose
    node is new. *)
Lemma afterToolCalls_nodes (v : source_file) (clock : Q) (msg : LiveServerMessage)
    (st : state) (n : nat) :
  nodeSeq (browser st) <= nodeSeq (browser (final (afterToolCalls v clock msg st))) /\
  (In n (sources (final (afterToolCalls v clock msg st))) \/
   In n (stopped (emitted (afterToolCalls v clock msg st))) ->
   In n (sources st) \/ n = S (nodeSeq (browser st))).
Proof.
  destruct msg as [tc ot it tcmp ia intr].
  destruct ot as [o|], it as [i|], tcmp, ia as [[|d]|], intr, v; cbn; flush_cases; cbn;
    rewrite ?app_nil_r, ?stopped_stop;
    (split; [lia|]); intros [H|H]; try contradiction; auto;
    try (apply setAdd_In in H; destruct H as [H|H]; auto).
Qed.

Lemma step_ended (v : source_file) (e : event) (st : state) (n : nat) :
  n <= nodeSeq (browser st) -> ~ In n (sources st) ->
  n <= nodeSeq (browser (final (step v e st))) /\
  ~ In n (sources (final (step v e st))) /\
  ~ In n (stopped (emitted (step v e st))).
Proof.
  intros Hn Hout.
  destruct e as [clock msg|inputData| |job blob|source| | | |]; cbn [step].
  - destruct (audioContextRef (refs st)) as [c|] eqn:Hctx.
    2:{ rewrite onmessage_without_contexts by exact Hctx. cbn. auto. }
    destruct (toolCallBlock_frame v msg st) as [Hv Hc].
    apply callEffects_schedule in Hc as [_ Hs].
    unfold playbackView in Hv. injection Hv as Ea Et Ec En Es Eq.
    destruct (callsThrow v msg) eqn:Hthrow.
    + rewrite onmessage_blocks, Hctx, andThen_thrown by now rewrite toolCallBlock_threw.
      unfold sources in *. rewrite Eq, Es, Hs. auto.
    + assert (Hlive : audioContextRef (refs st) <> None) by now rewrite Hctx.
      destruct (onmessage_live v clock msg st Hlive Hthrow)
        as (st1 & Hv1 & _ & Hf & He & _).
      unfold playbackView in Hv1. injection Hv1 as Fa Ft Fc Fn Fs Fq.
      destruct (afterToolCalls_nodes v clock msg st1 n) as [Hle Hin].
      unfold sources in *. rewrite Fs, Fq in *.
      rewrite Hf, He, stopped_app, Hs. cbn [app].
      repeat split; [lia| |]; intros H; destruct Hin as [Hin|Hin]; auto; lia.
  - unfold onaudioprocess. destruct (isMutedRef (refs st)); cbn; auto.
  - unfold frameTick.
    destruct (videoRef (refs st)) as [video|]; [|cbn; auto].
    destruct (canvasRef (refs st)) as [canvas|]; [|cbn; auto].
    destruct (sessionRef (refs st)); [|cbn; auto].
    destruct (frameGuard v video canvas); cbn; auto.
  - unfold toBlobCallback. destruct blob; cbn; auto.
  - cbn. repeat split; auto. unfold setDelete. rewrite filter_In. tauto.
  - cbn. auto.
  - cbn. auto.
  - cbn. auto.
  - revert Hn Hout. unfold sources. teardown_cases st; cbn;
      rewrite ?app_nil_r, ?stopped_stop; intros; repeat split; auto.
Qed.

(** X14.  A unit that has ended is never stopped afterwards.  Once the
    [ended] listener of a unit has run, no interruption and no teardown
    later in the session calls [stop] on it: the live set holds only
    units still due, and a new unit always gets a node of its own. *)
Theorem ended_unit_is_never_stopped (v : source_file) (es : list event) (st : state)
    (n : nat) :
  n <= nodeSeq (browser st) ->
  ~ In n (stopped (snd (run v es (final (onended n st))))).
Proof.
  intros Hn.
  assert (Hgen : forall es st, n <= nodeSeq (browser st) -> ~ In n (sources st) ->
                 ~ In n (stopped (snd (run v es st)))).
  { clear. induction es as [|e es IH]; intros st Hn Hout; [cbn; auto|].
    destruct (step_ended v e st n Hn Hout) as (H1 & H2 & H3).
    rewrite run_cons. cbn [snd]. rewrite stopped_app, in_app_iff.
    intros [H|H]; [contradiction|]. now apply (IH _ H1 H2). }
  apply Hgen; [exact Hn|].
  cbn. unfold setDelete. rewrite filter_In, Nat.eqb_refl. cbn. intuition discriminate.
Qed.

Lemma ended_unit_is_never_stopped_witness :
  ~ In 1 (stopped (snd (run SessionTsx
                          [Message (1#4)%Q (audioMessage (1#2)%Q);
                           Message (3#10)%Q interruption; Cleanup]
                          (final (onended 1 playing))))).
Proof.
  apply (ended_unit_is_never_stopped SessionTsx
           [Message (1#4)%Q (audioMessage (1#2)%Q);
            Message (3#10)%Q interruption; Cleanup] playing 1).
  cbn. lia.
Defined.

(* ------------------------------------------------------------------ *)
(** ** The expiry of visual cues *)

Lemma pendingTimeouts_app (a b : list effect) (pending : list nat) :
  pendingTimeouts (a ++ b) pending = pendingTimeouts b (pendingTimeouts a pending).
Proof.
  revert pending. induction a as [|e a IH]; intros pending; [reflexivity|].
  destruct e; cbn; apply IH.
Qed.

Lemma pendingTimeouts_playback (out : list effect) (pending : list nat) :
  forallb isPlaybackEffect out = true -> pendingTimeouts out pending = pending.
Proof.
  induction out as [|e out IH]; cbn; [reflexivity|].
  destruct e; cbn; try discriminate; exact IH.
Qed.

Lemma publishCue_pending (args : option FeedbackArgs) (ms : N) (st : state)
    (pending : list nat) :
  pending = [] \/ pending = heldTimer st ->
  pendingTimeouts (emitted (publishCue args ms st)) pending =
    heldTimer (final (publishCue args ms st)).
Proof.
  unfold publishCue, heldTimer. cbn.
  destruct (feedbackTimeoutRef (refs st)) as [[|i]|]; cbn;
    intros [->| ->]; cbn; rewrite ?Nat.eqb_refl; reflexivity.
Qed.

Lemma handleCall_pending (v : source_file) (fc : FunctionCall) (st : state)
    (pending : list nat) :
  pending = [] \/ pending = heldTimer st ->
  pendingTimeouts (emitted (handleCall v fc st)) pending = [] \/
  pendingTimeouts (emitted (handleCall v fc st)) pending =
    heldTimer (final (handleCall v fc st)).
Proof.
  intros Hp. unfold handleCall.
  destruct (String.eqb (fc_name fc) "updateVisualFeedback"); [|exact Hp].
  assert (G : forall args ms,
             pendingTimeouts (emitted (andThen (publishCue args ms) (respond fc) st)) pending =
             heldTimer (final (andThen (publishCue args ms) (respond fc) st))).
  { intros args ms.
    destruct (publishCue_emits args ms st) as (_ & _ & Ht & _).
    destruct (andThen_normal (publishCue args ms) (respond fc) st Ht) as (Hf & He & _).
    rewrite Hf, He, pendingTimeouts_app, (publishCue_pending args ms st pending Hp).
    reflexivity. }
  destruct v; [destruct (fc_args fc) as [a|]|]; try (right; apply G).
  exact Hp.
Qed.

Lemma forEachCall_pending (v : source_file) (fcs : list FunctionCall) (st : state)
    (pending : list nat) :
  pending = [] \/ pending = heldTimer st ->
  pendingTimeouts (emitted (forEachCall v fcs st)) pending = [] \/
  pendingTimeouts (emitted (forEachCall v fcs st)) pending =
    heldTimer (final (forEachCall v fcs st)).
Proof.
  revert st pending. induction fcs as [|fc fcs IH]; intros st pending Hp; [exact Hp|].
  cbn [forEachCall].
  destruct (threw (handleCall v fc st)) eqn:Ht.
  - rewrite andThen_thrown by exact Ht. now apply handleCall_pending.
  - destruct (andThen_normal (handleCall v fc) (forEachCall v fcs) st Ht) as (Hf & He & _).
    rewrite Hf, He, pendingTimeouts_app. apply IH. now apply handleCall_pending.
Qed.

Lemma afterToolCalls_heldTimer (v : source_file) (clock : Q) (msg : LiveServerMessage)
    (st : state) :
  heldTimer (final (afterToolCalls v clock msg st)) = heldTimer st.
Proof.
  destruct msg as [tc ot it tcmp ia intr]. unfold heldTimer.
  destruct ot as [o|], it as [i|], tcmp, ia as [[|d]|], intr, v; cbn; flush_cases; cbn;
    reflexivity.
Qed.

Lemma step_pending (v : source_file) (e : event) (st : state) (pending : list nat) :
  pending = [] \/ pending = heldTimer st ->
  pendingTimeouts (emitted (step v e st)) pending = [] \/
  pendingTimeouts (emitted (step v e st)) pending = heldTimer (final (step v e st)).
Proof.
  intros Hp.
  destruct e as [clock msg|inputData| |job blob|source| | | |]; cbn [step].
  - destruct (audioContextRef (refs st)) as [c|] eqn:Hctx.
    2:{ rewrite onmessage_without_contexts by exact Hctx. exact Hp. }
    assert (Hloop : pendingTimeouts (emitted (toolCallBlock v msg st)) pending = [] \/
                    pendingTimeouts (emitted (toolCallBlock v msg st)) pending =
                      heldTimer (final (toolCallBlock v msg st))).
    { unfold toolCallBlock. destruct (toolCall msg); [|exact Hp].
      now apply forEachCall_pending. }
    rewrite onmessage_blocks, Hctx.
    destruct (threw (toolCallBlock v msg st)) eqn:Ht.
    + now rewrite andThen_thrown by exact Ht.
    + destruct (andThen_normal (toolCallBlock v msg) (afterToolCalls v clock msg) st Ht)
        as (Hf & He & _).
      rewrite Hf, He, pendingTimeouts_app, afterToolCalls_heldTimer.
      now rewrite (pendingTimeouts_playback _ _ (afterToolCalls_effects v clock msg _)).
  - unfold onaudioprocess. destruct (isMutedRef (refs st)); exact Hp.
  - unfold frameTick.
    destruct (videoRef (refs st)) as [video|]; [|exact Hp].
    destruct (canvasRef (refs st)) as [canvas|]; [|exact Hp].
    destruct (sessionRef (refs st)); [|exact Hp].
    destruct (frameGuard v video canvas); exact Hp.
  - unfold toBlobCallback. destruct blob; exact Hp.
  - exact Hp.
  - exact Hp.
  - exact Hp.
  - exact Hp.
  - revert Hp. unfold heldTimer. teardown_cases st; cbn;
      rewrite ?app_nil_r, ?(pendingTimeouts_playback _ _ (playbackEffects_stop _));
      intros [->| ->]; cbn; rewrite ?Nat.eqb_refl; auto.
Qed.

(** X15.  Cue timers never pile up.  Of the timers set for visual cues in the
    course of a session, whatever happens, at most one has not been
    cleared, and it is the one [feedbackTimeoutRef] holds: every new
    cue clears the timer of the cue before it, and teardown clears the
    last. *)
Theorem cue_timers_never_pile_up (v : source_file) (es : list event) (st : state) :
  let pending := pendingTimeouts (snd (run v es st)) [] in
  (pending = [] \/ pending = heldTimer (fst (run v es st))) /\
  List.length pending <= 1.
Proof.
  cbn zeta.
  assert (G : forall es st pending,
             pending = [] \/ pending = heldTimer st ->
             pendingTimeouts (snd (run v es st)) pending = [] \/
             pendingTimeouts (snd (run v es st)) pending = heldTimer (fst (run v es st))).
  { clear. induction es as [|e es IH]; intros st pending Hp; [exact Hp|].
    rewrite run_cons. cbn [fst snd]. rewrite pendingTimeouts_app.
    apply IH. now apply step_pending. }
  destruct (G es st [] (or_introl eq_refl)) as [E|E]; rewrite E.
  - split; [now left|cbn; lia].
  - split; [now right|].
    unfold heldTimer. destruct (feedbackTimeoutRef _) as [[|i]|]; cbn; lia.
Qed.

Example three_cues_one_timer :
  pendingTimeouts
    (snd (run Part001
            [Message 0%Q (toolMessage [cueCall; bareCall]);
             Message 1%Q (toolMessage [cueCall])] opened)) [] = [5].
Proof. reflexivity. Qed.

(* ------------------------------------------------------------------ *)
(** ** What a failing or late message does *)

(** X16.  A chunk that cannot be decoded ends the handler where it stands.
    Nothing is scheduled and the cursor has only been raised to the
    clock; the blocks before it have run, so the text of the message is
    in the buffers; the block after it has not: when the same message
    also says that the agent was interrupted, nothing is stopped and
    the live set stays as it was. *)
Theorem undecodable_chunk_ends_the_handler (v : source_file) (clock : Q)
    (msg : LiveServerMessage) (st : state) :
  audioContextRef (refs st) <> None ->
  callsThrow v msg = false ->
  inlineAudio msg = Some Undecodable ->
  let r := onmessage v clock msg st in
  threw r = true /\
  schedule (emitted r) = [] /\
  stopped (emitted r) = [] /\
  sources (final r) = sources st /\
  nextStart (final r) = JS.Math_max (nextStart st) clock /\
  (turnComplete msg = false ->
   transcription (final r) =
     {| user := user (transcription st) ++ appendedUser msg;
        model := model (transcription st) ++ appendedModel msg |}).
Proof.
  intros Hlive Hc Ha. cbn zeta.
  destruct (onmessage_live v clock msg st Hlive Hc) as (st1 & Hv1 & Hc1 & Hf & He & Ht).
  apply callEffects_schedule in Hc1 as [Hs1 Hs2].
  unfold playbackView in Hv1. injection Hv1 as Fa Ft Fc Fn Fs Fq.
  rewrite Hf, He, Ht, schedule_app, stopped_app, Hs1, Hs2. cbn [app].
  unfold sources, nextStart, transcription. rewrite <- Fs, <- Fn, <- Ft.
  clear - Ha. destruct msg as [tc ot it tcmp ia intr]. cbn in Ha. subst ia.
  destruct ot as [o|], it as [i|], tcmp, intr, v; cbn; flush_cases; cbn;
    rewrite ?append_empty_r; repeat split; try discriminate;
    intros _; now destruct (transcriptionRef (refs st1)).
Qed.

Lemma undecodable_chunk_ends_the_handler_witness :
  let msg := {| toolCall := None; outputTranscription := None;
                inputTranscription := None; turnComplete := false;
                inlineAudio := Some Undecodable; interrupted := true |} in
  threw (onmessage SessionTsx (3#10)%Q msg playing) = true /\
  stopped (emitted (onmessage SessionTsx (3#10)%Q msg playing)) = [] /\
  sources (final (onmessage SessionTsx (3#10)%Q msg playing)) = [1; 2].
Proof.
  cbn zeta.
  destruct (undecodable_chunk_ends_the_handler SessionTsx (3#10)%Q
              {| toolCall := None; outputTranscription := None;
                 inputTranscription := None; turnComplete := false;
                 inlineAudio := Some Undecodable; interrupted := true |} playing)
    as (H1 & _ & H3 & H4 & _); try reflexivity; try discriminate.
  split; [exact H1|split; [exact H3|exact H4]].
Defined.

(** X17.  In [InterviewSession.tsx] a call of the declared tool that comes
    without arguments takes the rest of its message down with it:
    whatever the message carries besides (transcription, a turn
    boundary, audio, an interruption) is not handled.  The buffers, the
    history, the cursor and the live set stay as they were, nothing is
    scheduled and nothing is stopped. *)
Theorem missing_arguments_drop_the_message (clock : Q) (msg : LiveServerMessage)
    (st : state) :
  audioContextRef (refs st) <> None ->
  callsThrow SessionTsx msg = true ->
  let r := onmessage SessionTsx clock msg st in
  threw r = true /\
  transcription (final r) = transcription st /\
  transcript (final r) = transcript st /\
  nextStart (final r) = nextStart st /\
  sources (final r) = sources st /\
  schedule (emitted r) = [] /\
  stopped (emitted r) = [].
Proof.
  intros Hlive Hc. cbn zeta.
  destruct (toolCallBlock_frame SessionTsx msg st) as [Hv He].
  apply callEffects_schedule in He as [Hs1 Hs2].
  unfold playbackView in Hv. injection Hv as Ea Et Ec En Es Eq.
  rewrite onmessage_blocks.
  destruct (audioContextRef (refs st)); [|contradiction].
  rewrite andThen_thrown by now rewrite toolCallBlock_threw.
  rewrite toolCallBlock_threw.
  unfold transcription, transcript, nextStart, sources. auto 10.
Qed.

Lemma missing_arguments_drop_the_message_witness :
  let msg := {| toolCall := Some [{| fc_id := "call-1";
                                     fc_name := "updateVisualFeedback";
                                     fc_args := None |}];
                outputTranscription := Some "Tell me"; inputTranscription := None;
                turnComplete := true; inlineAudio := Some (Decodes (1#2)%Q);
                interrupted := false |} in
  transcription (final (onmessage SessionTsx 0%Q msg opened)) = transcription opened /\
  schedule (emitted (onmessage SessionTsx 0%Q msg opened)) = [].
Proof.
  cbn zeta.
  destruct (missing_arguments_drop_the_message 0%Q
              {| toolCall := Some [{| fc_id := "call-1";
                                      fc_name := "updateVisualFeedback";
                                      fc_args := None |}];
                 outputTranscription := Some "Tell me"; inputTranscription := None;
                 turnComplete := true; inlineAudio := Some (Decodes (1#2)%Q);
                 interrupted := false |} opened)
    as (_ & H2 & _ & _ & _ & H6 & _); try reflexivity; try discriminate.
  split; [exact H2|exact H6].
Defined.

(** X18.  Teardown switches the inbound handler off and keeps the record.
    After [cleanup] the history, the elapsed seconds and the two
    buffers are what they were, so finishing reports the same history
    and duration; and whatever messages still arrive change nothing and
    make no call: no audio is scheduled, no call acknowledged, no turn
    recorded. *)
Theorem teardown_keeps_the_record (v : source_file) (st : state)
    (ms : list (Q * LiveServerMessage)) :
  let down := final (cleanup st) in
  handleFinish down = handleFinish st /\
  transcription down = transcription st /\
  visualFeedback (react down) = visualFeedback (react st) /\
  run v (messages ms) down = (down, []).
Proof.
  cbn zeta. repeat split.
  - teardown_cases st; reflexivity.
  - teardown_cases st; reflexivity.
  - teardown_cases st; reflexivity.
  - assert (Hctx : audioContextRef (refs (final (cleanup st))) = None)
      by (teardown_cases st; reflexivity).
    revert Hctx. generalize (final (cleanup st)). intros down Hctx.
    induction ms as [|[c m] ms IH]; [reflexivity|].
    unfold messages in *. cbn [map fst snd]. rewrite run_cons. cbn [step].
    rewrite onmessage_without_contexts by exact Hctx.
    unfold done. cbn [final emitted fst snd]. now rewrite IH.
Qed.

(* ------------------------------------------------------------------ *)
(** ** What goes upstream, and the time on the clock *)

Lemma handleCall_button (v : source_file) (fc : FunctionCall) (st : state) :
  isMuted (react (final (handleCall v fc st))) = isMuted (react st) /\
  secondsElapsed (react (final (handleCall v fc st))) = secondsElapsed (react st).
Proof.
  unfold handleCall.
  destruct (String.eqb (fc_name fc) "updateVisualFeedback"); [|now split].
  destruct v; [destruct (fc_args fc) as [a|]|]; try (now split);
    unfold andThen, publishCue, respond; cbn; now split.
Qed.

Lemma forEachCall_button (v : source_file) (fcs : list FunctionCall) (st : state) :
  isMuted (react (final (forEachCall v fcs st))) = isMuted (react st) /\
  secondsElapsed (react (final (forEachCall v fcs st))) = secondsElapsed (react st).
Proof.
  revert st. induction fcs as [|fc fcs IH]; intros st; cbn; [now split|].
  destruct (handleCall_button v fc st) as [H1 H2].
  destruct (threw (handleCall v fc st)) eqn:Ht.
  - rewrite andThen_thrown by exact Ht. now split.
  - destruct (andThen_normal (handleCall v fc) (forEachCall v fcs) st Ht) as (Hf & _).
    destruct (IH (final (handleCall v fc st))) as [I1 I2].
    rewrite Hf, I1, I2. now split.
Qed.

Lemma afterToolCalls_button (v : source_file) (clock : Q) (msg : LiveServerMessage)
    (st : state) :
  isMuted (react (final (afterToolCalls v clock msg st))) = isMuted (react st) /\
  secondsElapsed (react (final (afterToolCalls v clock msg st))) =
    secondsElapsed (react st).
Proof.
  destruct msg as [tc ot it tcmp ia intr].
  destruct ot as [o|], it as [i|], tcmp, ia as [[|d]|], intr, v; cbn; flush_cases; cbn;
    now split.
Qed.

(** The inbound handler touches neither the mute button nor the time. *)
Lemma onmessage_button (v : source_file) (clock : Q) (msg : LiveServerMessage)
    (st : state) :
  isMuted (react (final (onmessage v clock msg st))) = isMuted (react st) /\
  secondsElapsed (react (final (onmessage v clock msg st))) = secondsElapsed (react st).
Proof.
  destruct (audioContextRef (refs st)) as [c|] eqn:Hctx.
  2:{ rewrite onmessage_without_contexts by exact Hctx. now cbn. }
  assert (Hm : isMuted (react (final (toolCallBlock v msg st))) = isMuted (react st) /\
               secondsElapsed (react (final (toolCallBlock v msg st))) =
                 secondsElapsed (react st)).
  { unfold toolCallBlock. destruct (toolCall msg); [apply forEachCall_button|now split]. }
  destruct Hm as [Hm1 Hm2].
  destruct (callsThrow v msg) eqn:Hthrow.
  - rewrite onmessage_blocks, Hctx, andThen_thrown by now rewrite toolCallBlock_threw.
    now split.
  - rewrite onmessage_blocks, Hctx.
    assert (Ht : threw (toolCallBlock v msg st) = false)
      by now rewrite toolCallBlock_threw.
    destruct (andThen_normal (toolCallBlock v msg) (afterToolCalls v clock msg) st Ht)
      as (Hf & _).
    destruct (afterToolCalls_button v clock msg (final (toolCallBlock v msg st)))
      as [A1 A2].
    rewrite Hf, A1, A2. now split.
Qed.

(** One callback: what it sends upstream, and what it does to the mute
    button and to the time. *)
Lemma step_upstream (v : source_file) (e : event) (st : state) :
  isMutedRef (refs st) = isMuted (react st) ->
  let st' := final (step v e st) in
  isMutedRef (refs st') = isMuted (react st') /\
  (forall rest, upstream (isMuted (react st)) (e :: rest) =
                sentMedia (emitted (step v e st)) ++ upstream (isMuted (react st')) rest) /\
  secondsElapsed (react st') = secondsElapsed (react st) + ticks [e].
Proof.
  intros Hm. cbn zeta.
  destruct e as [clock msg|inputData| |job blob|source| | | |]; cbn [step].
  - destruct (onmessage_capture v clock msg st) as [C1 C2].
    destruct (onmessage_button v clock msg st) as [B1 B2].
    rewrite C1, C2, B1, B2. cbn. rewrite Nat.add_0_r. auto.
  - unfold onaudioprocess. rewrite Hm.
    destruct (isMuted (react st)) eqn:Hb; cbn; rewrite ?Hb, Nat.add_0_r; auto.
  - unfold frameTick.
    destruct (videoRef (refs st)) as [video|]; [|cbn; rewrite Nat.add_0_r; auto].
    destruct (canvasRef (refs st)) as [canvas|]; [|cbn; rewrite Nat.add_0_r; auto].
    destruct (sessionRef (refs st)); [|cbn; rewrite Nat.add_0_r; auto].
    destruct (frameGuard v video canvas); cbn; rewrite Nat.add_0_r; auto.
  - unfold toBlobCallback. destruct blob; cbn; rewrite Nat.add_0_r; auto.
  - cbn. rewrite Nat.add_0_r. auto.
  - cbn. auto.
  - cbn. rewrite Nat.add_0_r. auto.
  - cbn. rewrite Nat.add_0_r. auto.
  - destruct (cleanup_capture st) as [C1 C2]. rewrite C1, C2.
    assert (Hr : isMuted (react (final (cleanup st))) = isMuted (react st) /\
                 secondsElapsed (react (final (cleanup st))) = secondsElapsed (react st))
      by (teardown_cases st; now split).
    destruct Hr as [-> ->]. cbn. rewrite Nat.add_0_r. auto.
Qed.

Lemma ticks_cons (e : event) (es : list event) : ticks (e :: es) = ticks [e] + ticks es.
Proof.
  unfold ticks. cbn. now destruct e.
Qed.

(** X19.  What the session sends upstream is settled by the microphone, the
    encoder and the mute button alone.  In any run that starts with the
    button and [isMutedRef] in step, the media sent are, in order, one
    audio frame for each block delivered while the button is off and
    one image for each encode that produced a blob; no message of the
    agent, no timer and no teardown sends media or moves the button.
    And the seconds on the clock at the end are those at the start
    plus the number of times the session timer fired, so that is the
    duration reported on finishing. *)
Theorem upstream_by_the_mute_button (v : source_file) (es : list event) (st : state) :
  isMutedRef (refs st) = isMuted (react st) ->
  sentMedia (snd (run v es st)) = upstream (isMuted (react st)) es /\
  isMutedRef (refs (fst (run v es st))) = isMuted (react (fst (run v es st))) /\
  snd (handleFinish (fst (run v es st))) =
    formatTime (secondsElapsed (react st) + ticks es).
Proof.
  revert st. induction es as [|e es IH]; intros st Hm.
  - cbn. unfold ticks. cbn. now rewrite Nat.add_0_r.
  - destruct (step_upstream v e st Hm) as (Hm' & Hup & Hsec).
    destruct (IH (final (step v e st)) Hm') as (I1 & I2 & I3).
    rewrite run_cons. cbn [fst snd].
    rewrite sentMedia_app, I1, I2, I3, Hup, Hsec, (ticks_cons e es), Nat.add_assoc.
    auto.
Qed.

Lemma upstream_by_the_mute_button_witness :
  sentMedia (snd (run SessionTsx
    [AudioProcess [(1#2)%Q]; MuteClick; AudioProcess [(1#4)%Q];
     Message 0%Q (audioMessage (1#2)%Q); Second;
     ToBlobDone 1 (Some "/9j/4AAQ"); MuteClick; AudioProcess [0%Q]; Cleanup] opened)) =
  [PcmMedia (createPcmBlob [(1#2)%Q]); JpegMedia "/9j/4AAQ"; PcmMedia (createPcmBlob [0%Q])].
Proof.
  apply (upstream_by_the_mute_button SessionTsx
    [AudioProcess [(1#2)%Q]; MuteClick; AudioProcess [(1#4)%Q];
     Message 0%Q (audioMessage (1#2)%Q); Second;
     ToBlobDone 1 (Some "/9j/4AAQ"); MuteClick; AudioProcess [0%Q]; Cleanup] opened).
  reflexivity.
Defined.
